(** * Project merger and repository-stats updater

    A shallow embedding of [data/merge_projects.py] and
    [data/update_json_v2.py], and the properties their specification
    states about them.

    Conventions of the embedding.
    - A value produced by [json.load] is a [json] term.  Numbers are the
      integers ([int]); a Python [bool] is an [int] wherever Python treats
      it as one.  Fractional numbers are outside the model.  The members
      of an object are listed in insertion order; [json.load] lists no
      key twice, and nothing below relies on it.
    - A [str] is the string of its UTF-8 bytes: equality, the order of
      [<] and [>], [startswith], [in] and [replace] with an ASCII pattern
      agree on bytes and on code points.
    - A Python [dict] is an association list in insertion order: assigning
      to a key that is present keeps its position, a new key goes last.
    - A call that may raise returns a [result]; what a function prints or
      logs is returned next to its value.  Only exceptions derived from
      [Exception] are modelled.
    - Opening and loading a file gives a value, [IOError],
      [JSONDecodeError], or any other exception ([UnicodeDecodeError]
      for a file whose bytes are not text), which no handler of the
      merger catches.
    - The hosting service is an oracle: a script holding, for each
      iteration of the retry loop, what each call of that iteration
      would answer.  The [data] of an API error is whatever the response
      body decoded to, [None] for an empty body.  Times are exact
      rationals. *)

From Stdlib Require Import ZArith List String Ascii Bool Lia.
From Stdlib Require Import QArith Qminmax.
From Stdlib Require Import Permutation Sorted.
Import ListNotations.

Local Open Scope string_scope.
Local Open Scope list_scope.
Local Open Scope Z_scope.

(** ** Python values and exceptions *)

#[local] Set Warnings "-register-all".

Inductive json : Type :=
| JNull
| JBool (b : bool)
| JInt (z : Z)
| JStr (s : string)
| JArr (items : list json)
| JObj (members : list (string * json)).

Inductive exn : Type :=
| TypeError
| KeyError
| AttributeError
| ValueError
| UnicodeDecodeError
| RateLimitExceededException
| GithubException (status : Z) (data : json)
| OtherException.

Inductive result (A : Type) : Type :=
| Returned (a : A)
| Raised (e : exn).
Arguments Returned {A} a.
Arguments Raised {A} e.

Definition bind {A B : Type} (r : result A) (f : A -> result B) : result B :=
  match r with
  | Returned a => f a
  | Raised e => Raised e
  end.

Definition fmap {A B : Type} (f : A -> B) (r : result A) : result B :=
  bind r (fun a => Returned (f a)).

Notation "x <- c ;; k" := (bind c (fun x => k))
  (at level 61, c at next level, right associativity).
Notation "' pat <- c ;; k" := (bind c (fun x => match x with pat => k end))
  (at level 61, pat pattern, c at next level, right associativity).

(** ** Dictionaries in insertion order *)

Section Dict.
Context {K V : Type} (eqb : K -> K -> bool).

Fixpoint dict_get (k : K) (d : list (K * V)) : option V :=
  match d with
  | [] => None
  | (k', v) :: rest => if eqb k' k then Some v else dict_get k rest
  end.

Fixpoint dict_set (k : K) (v : V) (d : list (K * V)) : list (K * V) :=
  match d with
  | [] => [(k, v)]
  | (k', v') :: rest =>
      if eqb k' k then (k', v) :: rest else (k', v') :: dict_set k v rest
  end.

Definition dict_mem (k : K) (d : list (K * V)) : bool :=
  match dict_get k d with Some _ => true | None => false end.

Definition dict_keys (d : list (K * V)) : list K := map fst d.
Definition dict_values (d : list (K * V)) : list V := map snd d.
End Dict.

(** The members of a JSON object, keyed by strings. *)
Definition obj_get (k : string) (o : list (string * json)) : option json :=
  dict_get String.eqb k o.
Definition obj_set (k : string) (v : json) (o : list (string * json)) :=
  dict_set String.eqb k v o.

(** ** Python's comparisons on loaded values *)

(** [bool] is a subclass of [int]. *)
Definition py_int (v : json) : option Z :=
  match v with
  | JBool b => Some (if b then 1 else 0)
  | JInt z => Some z
  | _ => None
  end.

(** [a == b]. *)
Fixpoint py_eq (a b : json) {struct a} : bool :=
  match a, b with
  | JNull, JNull => true
  | JStr s, JStr t => (s =? t)%string
  | JArr l, JArr m =>
      (fix all2 (l m : list json) {struct l} : bool :=
         match l, m with
         | [], [] => true
         | x :: l', y :: m' => py_eq x y && all2 l' m'
         | _, _ => false
         end) l m
  | JObj o, JObj p =>
      Nat.eqb (List.length o) (List.length p) &&
      (fix sub (o : list (string * json)) {struct o} : bool :=
         match o with
         | [] => true
         | (k, v) :: o' =>
             match obj_get k p with
             | Some w => py_eq v w && sub o'
             | None => false
             end
         end) o
  | _, _ =>
      match py_int a, py_int b with
      | Some x, Some y => (x =? y)%Z
      | _, _ => false
      end
  end.

(** [a > b]: defined between two integers, two strings and two lists;
    any other pair raises [TypeError]. *)
Fixpoint py_gt (a b : json) {struct a} : result bool :=
  match a, b with
  | JStr s, JStr t =>
      Returned (match String.compare s t with Gt => true | _ => false end)
  | JArr l, JArr m =>
      (fix lex (l m : list json) {struct l} : result bool :=
         match l, m with
         | x :: l', y :: m' => if py_eq x y then lex l' m' else py_gt x y
         | _ :: _, [] => Returned true
         | [], _ => Returned false
         end) l m
  | _, _ =>
      match py_int a, py_int b with
      | Some x, Some y => Returned (x >? y)%Z
      | _, _ => Raised TypeError
      end
  end.

(** Lists and dicts are unhashable: using one as a dict key raises. *)
Definition hashable (v : json) : bool :=
  match v with
  | JArr _ | JObj _ => false
  | _ => true
  end.

(** [key in d] on a dict keyed by loaded values: the key is hashed first. *)
Definition py_contains {V : Type} (k : json) (d : list (json * V)) : result bool :=
  if hashable k then Returned (dict_mem py_eq k d) else Raised TypeError.

(** ** Files *)

(** What [open] followed by [json.load] gives for a path: the loaded
    value, [IOError], [json.JSONDecodeError], or an exception that is
    neither (such as [UnicodeDecodeError], a [ValueError], for a file
    whose bytes cannot be decoded). *)
Inductive loaded : Type :=
| IOError
| JSONDecodeError
| LoadRaised (e : exn)
| Loaded (v : json).

Definition filesystem := string -> loaded.

(** ** [merge_projects.py] *)

Module Merger.

(** The lines printed on standard error. *)
Inductive message : Type :=
| ErrorNotArray (file_path : string)
| WarningInvalidEntry (file_path : string)
| ErrorInvalidJSON (file_path : string)
| ErrorCannotOpen (file_path : string).

(** [merged_projects]: project by name. *)
Definition merged := list (json * json).

Definition field (k : string) (project : json) : option json :=
  match project with
  | JObj o => obj_get k o
  | _ => None
  end.

(** [isinstance(project, dict) and 'name' in project
     and 'stars_count' in project]. *)
Definition valid_entry (project : json) : bool :=
  match field "name" project, field "stars_count" project with
  | Some _, Some _ => true
  | _, _ => false
  end.

(** The body of the loop over the projects of one file. *)
Definition process_project (file_path : string) (project : json)
    (merged_projects : merged) : result (merged * list message) :=
  match field "name" project, field "stars_count" project with
  | Some name, Some stars_count =>
      seen <- py_contains name merged_projects ;;
      if seen then
        match dict_get py_eq name merged_projects with
        | Some stored =>
            match field "stars_count" stored with
            | Some stored_stars =>
                higher <- py_gt stars_count stored_stars ;;
                if higher
                then Returned (dict_set py_eq name project merged_projects, [])
                else Returned (merged_projects, [])
            | None => Raised KeyError
            end
        | None => Raised KeyError
        end
      else Returned (dict_set py_eq name project merged_projects, [])
  | _, _ => Returned (merged_projects, [WarningInvalidEntry file_path])
  end.

Fixpoint process_projects (file_path : string) (projects : list json)
    (merged_projects : merged) : result (merged * list message) :=
  match projects with
  | [] => Returned (merged_projects, [])
  | project :: rest =>
      '(m1, out1) <- process_project file_path project merged_projects ;;
      '(m2, out2) <- process_projects file_path rest m1 ;;
      Returned (m2, out1 ++ out2)
  end.

(** The body of the loop over the input files: the two handlers catch
    [IOError] and [json.JSONDecodeError]; any other exception of the
    load leaves [merge_projects], as does an exception of the inner
    loop. *)
Definition process_file (fs : filesystem) (file_path : string)
    (merged_projects : merged) : result (merged * list message) :=
  match fs file_path with
  | IOError => Returned (merged_projects, [ErrorCannotOpen file_path])
  | JSONDecodeError => Returned (merged_projects, [ErrorInvalidJSON file_path])
  | LoadRaised e => Raised e
  | Loaded (JArr projects) => process_projects file_path projects merged_projects
  | Loaded _ => Returned (merged_projects, [ErrorNotArray file_path])
  end.

Fixpoint process_files (fs : filesystem) (input_files : list string)
    (merged_projects : merged) : result (merged * list message) :=
  match input_files with
  | [] => Returned (merged_projects, [])
  | file_path :: rest =>
      '(m1, out1) <- process_file fs file_path merged_projects ;;
      '(m2, out2) <- process_files fs rest m1 ;;
      Returned (m2, out1 ++ out2)
  end.

(** [merge_projects] with what it printed. *)
Definition merge_run (fs : filesystem) (input_files : list string)
    : result (list json * list message) :=
  '(m, out) <- process_files fs input_files [] ;;
  Returned (dict_values m, out).

Definition merge_projects (fs : filesystem) (input_files : list string)
    : result (list json) :=
  fmap fst (merge_run fs input_files).

Definition merge_stderr (fs : filesystem) (input_files : list string)
    : result (list message) :=
  fmap snd (merge_run fs input_files).

(** *** Vocabulary of the properties *)

(** Whether [stars_count] is an integer, and that integer. *)
Definition int_stars (project : json) : bool :=
  match field "stars_count" project with
  | Some (JInt _) => true
  | _ => false
  end.

Definition stars (project : json) : Z :=
  match field "stars_count" project with
  | Some (JInt z) => z
  | _ => 0
  end.

(** Whether [name] is a string, and that string. *)
Definition str_name (project : json) : bool :=
  match field "name" project with
  | Some (JStr _) => true
  | _ => false
  end.

Definition name (project : json) : string :=
  match field "name" project with
  | Some (JStr s) => s
  | _ => ""
  end.

(** A record of the data model. *)
Definition typed_entry (e : json) : Prop :=
  str_name e = true /\ int_stars e = true.

(** The entries of a file that pass the test of the inner loop, and
    those of a list of files, in the order the loops meet them. *)
Definition file_entries (fs : filesystem) (file_path : string) : list json :=
  match fs file_path with
  | Loaded (JArr projects) => filter valid_entry projects
  | _ => []
  end.

Definition entries (fs : filesystem) (input_files : list string) : list json :=
  flat_map (file_entries fs) input_files.

(** The records follow the data model: a string [name] and an integer
    [stars_count]. *)
Definition conforming (fs : filesystem) (input_files : list string) : bool :=
  forallb (fun e => str_name e && int_stars e) (entries fs input_files).

(** Loading the file raises an exception that [merge_projects] does not
    catch. *)
Definition aborts (fs : filesystem) (file_path : string) : bool :=
  match fs file_path with
  | LoadRaised _ => true
  | _ => false
  end.

(** Every file loads, or fails in a way the merger handles. *)
Definition loads (fs : filesystem) (input_files : list string) : bool :=
  forallb (fun file_path => negb (aborts fs file_path)) input_files.

(** The value of [name], whatever its type. *)
Definition entry_name (project : json) : json :=
  match field "name" project with
  | Some n => n
  | None => JNull
  end.

(** The values of [l] in the order of their first occurrence, two
    values being the same when Python's [==] says so. *)
Definition see (acc : list json) (x : json) : list json :=
  if existsb (fun k => py_eq k x) acc then acc else acc ++ [x].

Definition first_occurrences (l : list json) : list json :=
  fold_left see l [].

(** Every key is hashable and is, up to [==], the name of the record
    stored under it. *)
Definition named (d : merged) : Prop :=
  forall k r, In (k, r) d ->
    hashable k = true /\ py_eq k (entry_name r) = true.



(** Position of the first occurrence of [x] in [l]. *)
Fixpoint index_of (x : string) (l : list string) : nat :=
  match l with
  | [] => O
  | y :: l' => if (y =? x)%string then O else S (index_of x l')
  end.

(** The names of [l] in the order of their first occurrence. *)
Definition first_seen (l : list string) : list string :=
  fold_left (fun acc x => if in_dec string_dec x acc then acc else acc ++ [x])
    l [].

(** [r] is, among the entries [seen], the first one of its name that has
    the highest [stars_count] of that name. *)
Definition first_of_highest (seen : list json) (r : json) : Prop :=
  exists before after,
    seen = before ++ r :: after /\
    (forall e, In e before ->
       field "name" e = field "name" r -> stars e < stars r) /\
    (forall e, In e after ->
       field "name" e = field "name" r -> stars e <= stars r).

(** The dict already holds, under the name of [e], a record with at
    least as many stars. *)
Definition covered (d : merged) (e : json) : Prop :=
  exists n r,
    field "name" e = Some n /\ hashable n = true /\
    dict_get py_eq n d = Some r /\
    int_stars r = true /\ int_stars e = true /\ stars e <= stars r.

(** What the loops maintain on [merged_projects] once they have met the
    entries [seen]. *)
Record merged_inv (seen : list json) (d : merged) : Prop := {
  inv_keys : dict_keys d = map JStr (first_seen (map name seen));
  inv_values : forall k r, In (k, r) d ->
                 field "name" r = Some k /\ first_of_highest seen r
}.

(** Every stored record carries a name that its own key answers to and
    that no earlier key answers to. *)
Fixpoint keyed (d : merged) : Prop :=
  match d with
  | [] => True
  | (k, r) :: rest =>
      (exists n, field "name" r = Some n /\ py_eq k n = true) /\
      (forall r', In r' (dict_values rest) ->
         exists n', field "name" r' = Some n' /\ py_eq k n' = false) /\
      keyed rest
  end.

End Merger.

(** ** [update_json_v2.py] *)

Module Updater.

(** *** Strings *)

(** [needle in s] on two strings. *)
Fixpoint substring_in (needle s : string) : bool :=
  String.prefix needle s ||
  match s with
  | EmptyString => false
  | String _ s' => substring_in needle s'
  end.

(** [s.replace(old, "")] for a non-empty [old]: the occurrences of [old]
    are dropped from left to right; [skip] counts the characters of the
    occurrence being dropped. *)
Fixpoint remove_from (old : string) (skip : nat) (s : string) : string :=
  match s with
  | EmptyString => EmptyString
  | String c s' =>
      match skip with
      | S n => remove_from old n s'
      | O =>
          if String.prefix old s
          then remove_from old (Nat.pred (String.length old)) s'
          else String c (remove_from old O s')
      end
  end.

Definition github_prefix : string := "https://github.com/".

Definition extract_repo_path (github_url : json) : result string :=
  match github_url with
  | JStr url =>
      if String.prefix github_prefix url
      then Returned (remove_from github_prefix O url)
      else Raised ValueError
  | _ => Raised AttributeError
  end.

(** *** The hosting service *)

(** What the calls of one iteration of the retry loop answer:
    [g.get_repo(repo_path)] with the repository's [stargazers_count] and
    [forks_count], [g.get_rate_limit()] in the [try] block,
    [g.get_rate_limit().core.reset.timestamp()] in the rate-limit handler,
    and [time.time()] there.  Times are exact rationals, in seconds. *)
Record attempt : Type := {
  get_repo : result (Z * Z);
  get_rate_limit : result unit;
  rate_limit_reset : result Q;
  now : Q
}.

Inductive label : Type :=
| Name (v : json)
| RepositoryNo (index : Z).

(** What the outer handler of [main] catches. *)
Inductive failure : Type :=
| LoadFailed
| WriteFailed
| Uncaught (e : exn).

(** Calls of the service, sleeps and log lines, in program order. *)
Inductive event : Type :=
| Fetch (repo_path : string)
| SleepUntilReset (wait_time : Q)
| SleepBackoff (backoff_time : Z)
| LogRateLimitExceeded (wait_time : Q)
| LogApiError (status : Z)
| LogNotFound (repo_path : string)
| LogUnexpected (e : exn)
| LogRetrying (backoff_time retry_count max_retries : Z)
| LogFailed (repo_path : string) (max_retries : Z)
| LogProcessing (index total : Z) (repo_name : label)
| LogNoGithubUrl (repo_name : label)
| LogUpdating (repo_path : string)
| LogUpdated (repo_name : label) (before_stars before_forks : option json)
             (stars forks : option json)
| LogErrorProcessing (repo_name : label) (e : exn)
| LogSaving (output_file : string)
| LogSuccess (success_count total : Z)
| LogProgramFailed (f : failure).

Definition repo_data := list (string * json).

(** How a run of [update_repo_stats] ends: it returns, it raises, or the
    script has no answer left for its next iteration. *)
Inductive outcome : Type :=
| Done (r : result bool)
| Waiting.

Record run : Type := {
  out : outcome;
  data : repo_data;
  trace : list event;
  unused : list attempt
}.

Definition emit (evs : list event) (r : run) : run :=
  {| out := out r; data := data r; trace := evs ++ trace r; unused := unused r |}.

(** [max(reset_timestamp - time.time(), 0) + 1]. *)
Definition wait_time (reset_timestamp current : Q) : Q :=
  (Qmax (reset_timestamp - current) 0 + 1)%Q.

(** How an iteration of the [while] loop ends: at the loop test again,
    with a [return], or with an exception that leaves the function. *)
Inductive control : Type :=
| Continue (retry_count backoff_time : Z)
| Return (b : bool)
| Raise (e : exn).

(** [v.get(key, default)], a method of dicts only; [None] stands for the
    default. *)
Definition py_get (key : string) (v : json) : result (option json) :=
  match v with
  | JObj members => Returned (obj_get key members)
  | _ => Raised AttributeError
  end.

(** The body of the [while] loop of [update_repo_stats]: the [try] block
    and its three handlers.  The handler of [GithubException] evaluates
    [e.data.get('message', '')] for its first log line, before anything
    else; an exception raised in a handler leaves the function. *)
Definition loop_body (repo_path : string) (max_retries : Z) (a : attempt)
    (retry_count backoff_time : Z) (repo : repo_data)
    : control * repo_data * list event :=
  let handle (e : exn) (repo : repo_data) :=
    match e with
    | RateLimitExceededException =>
        match rate_limit_reset a with
        | Returned reset_timestamp =>
            let w := wait_time reset_timestamp (now a) in
            (Continue retry_count backoff_time, repo,
             [LogRateLimitExceeded w; SleepUntilReset w])
        | Raised e' => (Raise e', repo, [])
        end
    | GithubException status data =>
        match py_get "message" data with
        | Raised e' => (Raise e', repo, [])
        | Returned _ =>
            if status =? 404 then
              (Return false, repo, [LogApiError status; LogNotFound repo_path])
            else
              let retry_count := retry_count + 1 in
              let backoff_time := backoff_time * 2 in
              (Continue retry_count backoff_time, repo,
               [LogApiError status;
                LogRetrying backoff_time retry_count max_retries;
                SleepBackoff backoff_time])
        end
    | _ =>
        let retry_count := retry_count + 1 in
        let backoff_time := backoff_time * 2 in
        (Continue retry_count backoff_time, repo,
         [LogUnexpected e;
          LogRetrying backoff_time retry_count max_retries;
          SleepBackoff backoff_time])
    end in
  let '(c, repo, evs) :=
    match get_repo a with
    | Returned (stargazers_count, forks_count) =>
        let repo := obj_set "stars_count" (JInt stargazers_count) repo in
        let repo := obj_set "forks_count" (JInt forks_count) repo in
        match get_rate_limit a with
        | Returned _ => (Return true, repo, [])
        | Raised e => handle e repo
        end
    | Raised e => handle e repo
    end in
  (c, repo, Fetch repo_path :: evs).

(** The [while] loop, one script entry for each iteration. *)
Fixpoint update_loop (repo_path : string) (max_retries : Z)
    (script : list attempt) (retry_count backoff_time : Z)
    (repo : repo_data) : run :=
  if retry_count <? max_retries then
    match script with
    | [] => {| out := Waiting; data := repo; trace := []; unused := [] |}
    | a :: script' =>
        let '(c, repo, evs) :=
          loop_body repo_path max_retries a retry_count backoff_time repo in
        match c with
        | Continue retry_count backoff_time =>
            emit evs (update_loop repo_path max_retries script'
                        retry_count backoff_time repo)
        | Return b =>
            {| out := Done (Returned b); data := repo; trace := evs;
               unused := script' |}
        | Raise e =>
            {| out := Done (Raised e); data := repo; trace := evs;
               unused := script' |}
        end
    end
  else
    {| out := Done (Returned false); data := repo;
       trace := [LogFailed repo_path max_retries]; unused := script |}.

Definition update_repo_stats (script : list attempt) (repo_path : string)
    (repo : repo_data) (max_retries : Z) : run :=
  update_loop repo_path max_retries script 0 1 repo.

Definition default_max_retries : Z := 5.

(** *** The main loop *)

(** Iterating over a loaded value: the items of a list, the keys of a
    dict, the characters of a string (of which the program only ever
    observes that each one is a string). *)
Definition py_iter (v : json) : result (list json) :=
  match v with
  | JArr items => Returned items
  | JObj members => Returned (map (fun kv => JStr (fst kv)) members)
  | JStr s => Returned (map (fun c => JStr (String c EmptyString))
                            (list_ascii_of_string s))
  | _ => Raised TypeError
  end.

(** [v[key]] for a string [key]. *)
Definition py_getitem (key : string) (v : json) : result json :=
  match v with
  | JObj members =>
      match obj_get key members with
      | Some x => Returned x
      | None => Raised KeyError
      end
  | _ => Raised TypeError
  end.

(** [needle in v] for a string [needle]. *)
Definition py_in (needle : string) (v : json) : result bool :=
  match v with
  | JStr s => Returned (substring_in needle s)
  | JArr items => Returned (existsb (fun x => py_eq x (JStr needle)) items)
  | JObj members => Returned (dict_mem String.eqb needle members)
  | _ => Raised TypeError
  end.

Definition py_truthy (v : json) : bool :=
  match v with
  | JNull => false
  | JBool b => b
  | JInt z => negb (z =? 0)
  | JStr s => negb (s =? "")%string
  | JArr items => match items with [] => false | _ => true end
  | JObj members => match members with [] => false | _ => true end
  end.

(** [next(iter(i['url'] for i in links if 'github.com' in i['url']), None)]:
    the links after the first hit are not looked at. *)
Fixpoint first_github_url (links : list json) : result (option json) :=
  match links with
  | [] => Returned None
  | i :: rest =>
      url <- py_getitem "url" i ;;
      hit <- py_in "github.com" url ;;
      if hit then Returned (Some url) else first_github_url rest
  end.

(** The statements of the inner [try] that come before the call of
    [update_repo_stats]: the repository path, or [None] when no GitHub
    URL is found. *)
Definition locate (repo : repo_data) : result (option string) :=
  links <- py_getitem "links" (JObj repo) ;;
  items <- py_iter links ;;
  github_url <- first_github_url items ;;
  match github_url with
  | Some url =>
      if py_truthy url
      then (repo_path <- extract_repo_path url ;; Returned (Some repo_path))
      else Returned None
  | None => Returned None
  end.

Definition repo_name (repo : repo_data) (index : Z) : label :=
  match obj_get "name" repo with
  | Some v => Name v
  | None => RepositoryNo index
  end.

(** One pass of the [for] loop over an entry that is a mapping: the inner
    [try] with its handler.  The result tells whether [success_count]
    grows; [None] when the script ran out. *)
Definition process_repo (script : list attempt) (index : Z)
    (repo : repo_data) : option bool * repo_data * list event * list attempt :=
  let name := repo_name repo index in
  match locate repo with
  | Raised e => (Some false, repo, [LogErrorProcessing name e], script)
  | Returned None => (Some false, repo, [LogNoGithubUrl name], script)
  | Returned (Some repo_path) =>
      let before_stars := obj_get "stars_count" repo in
      let before_forks := obj_get "forks_count" repo in
      let r := update_repo_stats script repo_path repo default_max_retries in
      let evs := LogUpdating repo_path :: trace r in
      match out r with
      | Waiting => (None, data r, evs, unused r)
      | Done (Raised e) =>
          (Some false, data r, evs ++ [LogErrorProcessing name e], unused r)
      | Done (Returned false) => (Some false, data r, evs, unused r)
      | Done (Returned true) =>
          (Some true, data r,
           evs ++ [LogUpdated name before_stars before_forks
                     (obj_get "stars_count" (data r))
                     (obj_get "forks_count" (data r))],
           unused r)
      end
  end.

(** How the [for] loop ends: it runs to its end, an exception leaves it
    (towards the outer handler), or the script ran out. *)
Inductive loop_end : Type :=
| Completed (success_count : Z)
| Escaped (e : exn)
| Stalled.

(** The [for] loop of [main]; [repo.get] on an entry that is not a
    mapping raises before the inner [try] is entered. *)
Fixpoint main_loop (script : list attempt) (index total : Z)
    (repos : list json) : loop_end * list json * list event :=
  match repos with
  | [] => (Completed 0, [], [])
  | JObj repo :: rest =>
      let '(counted, repo', evs, script') := process_repo script index repo in
      let evs := LogProcessing index total (repo_name repo index) :: evs in
      match counted with
      | None => (Stalled, JObj repo' :: rest, evs)
      | Some c =>
          let '(e, rest', evs') := main_loop script' (index + 1) total rest in
          (match e with
           | Completed n => Completed ((if c then 1 else 0) + n)
           | _ => e
           end,
           JObj repo' :: rest', evs ++ evs')
      end
  | _ :: _ => (Escaped AttributeError, repos, [])
  end.

(** An entry that is a mapping. *)
Definition is_object (v : json) : bool :=
  match v with
  | JObj _ => true
  | _ => false
  end.

Record arguments : Type := {
  json_path : string;
  output : option string
}.

(** [args.output or args.json]. *)
Definition output_file (args : arguments) : string :=
  match output args with
  | Some o => if (o =? "")%string then json_path args else o
  | None => json_path args
  end.

Record world : Type := {
  files : filesystem;
  writable : string -> bool;
  service : list attempt
}.

(** What [main] leaves behind: its exit status ([None] when the script
    ran out), the file it wrote, and its log. *)
Record report : Type := {
  exit_status : option Z;
  written : option (string * json);
  log : list event
}.

Definition program_failed (f : failure) (evs : list event) : report :=
  {| exit_status := Some 1; written := None;
     log := evs ++ [LogProgramFailed f] |}.

(** [main], from the outer [try] on. *)
Definition main (w : world) (args : arguments) : report :=
  match files w (json_path args) with
  | IOError | JSONDecodeError => program_failed LoadFailed []
  | LoadRaised e => program_failed (Uncaught e) []
  | Loaded loaded_data =>
      match py_iter loaded_data with
      | Raised e => program_failed (Uncaught e) []
      | Returned repos =>
          let total := Z.of_nat (List.length repos) in
          let '(e, repos', evs) := main_loop (service w) 1 total repos in
          match e with
          | Stalled => {| exit_status := None; written := None; log := evs |}
          | Escaped e => program_failed (Uncaught e) evs
          | Completed success_count =>
              let updated :=
                match loaded_data with
                | JArr _ => JArr repos'
                | _ => loaded_data
                end in
              let evs := evs ++ [LogSaving (output_file args)] in
              if writable w (output_file args) then
                {| exit_status := Some 0;
                   written := Some (output_file args, updated);
                   log := evs ++ [LogSuccess success_count total] |}
              else program_failed WriteFailed evs
          end
      end
  end.

(** *** Vocabulary of the properties *)

Definition is_rate_limit (e : exn) : bool :=
  match e with
  | RateLimitExceededException => true
  | _ => false
  end.




(** The exception raised in the [try] block of the iteration, by the
    fetch or by the rate-limit query that follows it. *)
Definition raised_in_try (a : attempt) : option exn :=
  match get_repo a with
  | Raised e => Some e
  | Returned _ =>
      match get_rate_limit a with
      | Raised e => Some e
      | Returned _ => None
      end
  end.

(** The [try] block of the iteration runs to [return True]. *)
Definition succeeds (a : attempt) : bool :=
  match get_repo a, get_rate_limit a with
  | Returned _, Returned _ => true
  | _, _ => false
  end.

(** Nothing in the [try] block of the iteration raises
    [RateLimitExceededException]. *)
Definition calm (a : attempt) : bool :=
  match get_repo a with
  | Raised e => negb (is_rate_limit e)
  | Returned _ =>
      match get_rate_limit a with
      | Raised e => negb (is_rate_limit e)
      | Returned _ => true
      end
  end.

(** The [try] block of the iteration raises
    [RateLimitExceededException], at the fetch or at the rate-limit query
    that follows it, and the handler obtains the reset time. *)
Definition rate_limited (a : attempt) : bool :=
  negb (calm a) &&
  match rate_limit_reset a with
  | Returned _ => true
  | Raised _ => false
  end.




(** The fetch of the iteration returns the counts. *)
Definition fetch_returns (a : attempt) : bool :=
  match get_repo a with
  | Returned _ => true
  | Raised _ => false
  end.

(** The fields after the iterations of [script]: every fetch that
    returns stores its counts, whatever follows in its iteration. *)
Fixpoint stored_by (script : list attempt) (repo : repo_data) : repo_data :=
  match script with
  | [] => repo
  | a :: script' =>
      stored_by script'
        match get_repo a with
        | Returned (stargazers_count, forks_count) =>
            obj_set "forks_count" (JInt forks_count)
              (obj_set "stars_count" (JInt stargazers_count) repo)
        | Raised _ => repo
        end
  end.

(** The time slept by the rate-limit handler of the iteration. *)
Definition wait_of (a : attempt) : Q :=
  match rate_limit_reset a with
  | Returned reset_timestamp => wait_time reset_timestamp (now a)
  | Raised _ => 0%Q
  end.

Definition fetches (tr : list event) : nat :=
  List.length (filter (fun ev => match ev with Fetch _ => true | _ => false end) tr).

Fixpoint backoff_sleeps (tr : list event) : list Z :=
  match tr with
  | [] => []
  | SleepBackoff t :: tr' => t :: backoff_sleeps tr'
  | _ :: tr' => backoff_sleeps tr'
  end.

Fixpoint retry_counts (tr : list event) : list Z :=
  match tr with
  | [] => []
  | LogRetrying _ n _ :: tr' => n :: retry_counts tr'
  | _ :: tr' => retry_counts tr'
  end.

(** How many errors of the backoff branches the log reports. *)
Fixpoint retry_errors (tr : list event) : nat :=
  match tr with
  | [] => O
  | LogApiError status :: tr' =>
      if status =? 404 then retry_errors tr' else S (retry_errors tr')
  | LogUnexpected _ :: tr' => S (retry_errors tr')
  | _ :: tr' => retry_errors tr'
  end.


(** Splits the body of the retry loop into its paths. *)
Ltac paths a :=
  unfold loop_body;
  destruct (get_repo a) as [[? ?]|[]] eqn:?;
  [destruct (get_rate_limit a) as [?|[]] eqn:?|..];
  simpl;
  repeat match goal with
         | |- context [rate_limit_reset a] =>
             destruct (rate_limit_reset a) as [?|?] eqn:?
         | |- context [py_get _ ?d] => is_var d; destruct d; simpl
         | |- context [?s =? 404] => destruct (Z.eqb_spec s 404)
         end;
  simpl.

End Updater.

(** ** Sample inputs *)

Module Examples.
Import Merger Updater.

Definition project (name : string) (stars_count : json) : json :=
  JObj [("name", JStr name); ("stars_count", stars_count)].

(** The two files of the specification's example, a file with a record
    that is replaced later in the same file and an entry that is not a
    record, a file whose record has a null [stars_count], and files that
    are rejected. *)
Definition sample_files : filesystem := fun file_path =>
  if (file_path =? "five.json")%string then
    Loaded (JArr [project "a" (JInt 5)])
  else if (file_path =? "nine.json")%string then
    Loaded (JArr [project "a" (JInt 9)])
  else if (file_path =? "mixed.json")%string then
    Loaded (JArr [project "b" (JInt 1); JInt 3; project "a" (JInt 9);
                  project "b" (JInt 7); project "a" (JInt 9)])
  else if (file_path =? "null.json")%string then
    Loaded (JArr [project "a" JNull])
  else if (file_path =? "broken.json")%string then JSONDecodeError
  else if (file_path =? "object.json")%string then
    Loaded (JObj [("name", JStr "a"); ("stars_count", JInt 1)])
  else IOError.

(** The sample files, a file whose bytes are not UTF-8 text, and a file
    whose names are not strings. *)
Definition unusual_files : filesystem := fun file_path =>
  if (file_path =? "latin1.json")%string then LoadRaised UnicodeDecodeError
  else if (file_path =? "names.json")%string then
    Loaded (JArr [JObj [("name", JInt 1); ("stars_count", JInt 3)];
                  JObj [("name", JNull); ("stars_count", JInt 2)];
                  JObj [("name", JBool true); ("stars_count", JInt 4)]])
  else sample_files file_path.

(** Answers of the service. *)
Definition answer (fetch : result (Z * Z)) (rate : result unit)
    (reset : result Q) (current : Q) : attempt :=
  {| get_repo := fetch; get_rate_limit := rate;
     rate_limit_reset := reset; now := current |}.

Definition fetched : attempt :=
  answer (Returned (10, 3)) (Returned tt) (Returned 0%Q) 0%Q.
(** The body of an API error, as a mapping. *)
Definition body (message : string) : json := JObj [("message", JStr message)].

Definition not_found : attempt :=
  answer (Raised (GithubException 404 (body "Not Found"))) (Returned tt)
    (Returned 0%Q) 0%Q.
Definition server_error : attempt :=
  answer (Raised (GithubException 500 (body "Server Error"))) (Returned tt)
    (Returned 0%Q) 0%Q.
Definition rate_limit_ahead : attempt :=
  answer (Raised RateLimitExceededException) (Returned tt)
    (Returned 160%Q) 100%Q.
Definition rate_limit_past : attempt :=
  answer (Raised RateLimitExceededException) (Returned tt)
    (Returned 100%Q) 105%Q.
(** The fetch returns, then the rate-limit query of the [try] block
    raises (a connection error, say). *)
Definition fetched_then_failed : attempt :=
  answer (Returned (10, 3)) (Raised OtherException) (Returned 0%Q) 0%Q.

(** The fetch returns, then the rate-limit query of the [try] block is
    answered rate-limit-exceeded. *)
Definition fetched_then_limited : attempt :=
  answer (Returned (10, 3)) (Raised RateLimitExceededException)
    (Returned 160%Q) 100%Q.
(** An API error whose response had no body: its [data] is [None]. *)
Definition blank_error : attempt :=
  answer (Raised (GithubException 502 JNull)) (Returned tt) (Returned 0%Q) 0%Q.

Definition stored : repo_data :=
  [("name", JStr "r"); ("stars_count", JInt 1); ("forks_count", JInt 0)].

Definition link (url : string) : json := JObj [("url", JStr url)].

Definition repository (name : string) (links : json) : json :=
  JObj [("name", JStr name); ("links", links);
        ("stars_count", JInt 1); ("forks_count", JInt 0)].

Definition good_repo : json :=
  repository "good" (JArr [link "https://example.org/";
                           link "https://github.com/o/r"]).
Definition no_links_repo : json := JObj [("name", JStr "bare")].
Definition bad_prefix_repo : json :=
  repository "mirror" (JArr [link "http://github.com/o/r"]).

Definition sample_args : arguments :=
  {| json_path := "repos.json"; output := None |}.

Definition sample_world (data : json) (script : list attempt) : world :=
  {| files := fun _ => Loaded data;
     writable := fun _ => true;
     service := script |}.

End Examples.

(** ** [merge_projects.py]: the command line *)

Module MergerMain.
Import Merger.

(** The parsed command line: the input files and the value of
    [-o/--output], if given. *)
Record arguments : Type := {
  input_files : list string;
  output : option string
}.

Definition default_output : string := "projects.json".

Definition output_path (args : arguments) : string :=
  match output args with
  | Some o => o
  | None => default_output
  end.

(** What [main] itself says, besides the lines of [merge_projects]. *)
Inductive line : Type :=
| Usage
| Traceback (e : exn)
| Merged (count : nat) (output : string)
| CannotWrite (output : string).

Record report : Type := {
  exit_status : Z;
  written : option (string * json);
  said : list line
}.

(** [main]: [nargs="+"] refuses an empty list of input files with exit
    status 2; an exception that leaves [merge_projects] ends the process
    with a traceback and exit status 1; the output file is opened only
    after the merge.  [writable] tells whether opening a path for
    writing and dumping to it goes through or raises [IOError]. *)
Definition main (fs : filesystem) (writable : string -> bool)
    (args : arguments) : report :=
  match input_files args with
  | [] => {| exit_status := 2; written := None; said := [Usage] |}
  | _ :: _ =>
      match merge_projects fs (input_files args) with
      | Raised e =>
          {| exit_status := 1; written := None; said := [Traceback e] |}
      | Returned merged_projects =>
          if writable (output_path args) then
            {| exit_status := 0;
               written := Some (output_path args, JArr merged_projects);
               said := [Merged (List.length merged_projects) (output_path args)] |}
          else
            {| exit_status := 1; written := None;
               said := [CannotWrite (output_path args)] |}
      end
  end.

End MergerMain.

(** ** Vocabulary of further properties *)

Module Coverage.
Import Merger Updater.

(** The lines [merge_projects] prints for one file: one for a file it
    cannot use, one for each entry it skips. *)
Definition diagnostics (fs : filesystem) (file_path : string) : list message :=
  match fs file_path with
  | IOError => [ErrorCannotOpen file_path]
  | JSONDecodeError => [ErrorInvalidJSON file_path]
  | LoadRaised _ => []
  | Loaded (JArr projects) =>
      map (fun _ => WarningInvalidEntry file_path)
          (filter (fun e => negb (valid_entry e)) projects)
  | Loaded _ => [ErrorNotArray file_path]
  end.

(** The dict entry of a record of the data model. *)
Definition keyed_by_name (r : json) : json * json := (JStr (name r), r).

(** A link object whose [url] is a string. *)
Definition link_url (i : json) (url : string) : Prop :=
  py_getitem "url" i = Returned (JStr url).

Definition mentions_github (url : string) : bool :=
  substring_in "github.com" url.

(** Two entries that differ at most in their counts. *)
Definition counts_apart (before after : repo_data) : Prop :=
  forall k, k <> "stars_count" -> k <> "forks_count" ->
            obj_get k after = obj_get k before.

Definition entry_counts_apart (before after : json) : Prop :=
  exists o o', before = JObj o /\ after = JObj o' /\ counts_apart o o'.

(** How often the rate-limit handler slept. *)
Definition rate_limit_sleeps (tr : list event) : nat :=
  List.length
    (filter (fun ev => match ev with SleepUntilReset _ => true | _ => false end)
       tr).

Definition total (l : list Z) : Z := fold_right Z.add 0 l.

(** An empty string or an empty object: a value that is not a list and
    over which the [for] loop of the updater does not iterate once. *)
Definition empty_container (v : json) : bool :=
  match v with
  | JStr s => (s =? "")%string
  | JObj [] => true
  | _ => false
  end.

Definition is_array (v : json) : bool :=
  match v with
  | JArr _ => true
  | _ => false
  end.

End Coverage.

(** ** Further sample inputs *)

Module MoreExamples.
Import Merger Updater Examples.

(** The sample files, and the list merged from [five.json] and
    [nine.json] saved as [merged.json]. *)
Definition saved_files : filesystem := fun file_path =>
  if (file_path =? "merged.json")%string then
    Loaded (JArr [project "a" (JInt 9)])
  else sample_files file_path.

(** The fetch is answered rate-limit-exceeded and the query of the reset
    time raises. *)
Definition rate_limit_blind : attempt :=
  answer (Raised RateLimitExceededException) (Returned tt)
    (Raised OtherException) 0%Q.

(** An entry whose links all point elsewhere. *)
Definition elsewhere_repo : repo_data :=
  [("name", JStr "elsewhere");
   ("links", JArr [link "https://example.org/"; link "https://gitlab.com/o/r"])].

(** A link to another site, a link whose URL mentions [github.com]
    under another scheme, something that is no link object, and a link
    of the expected form. *)
Definition mixed_links : repo_data :=
  [("name", JStr "mixed");
   ("links", JArr [link "https://example.org/"; link "http://github.com/o/r";
                   JNull; link "https://github.com/o/r"])].

Definition merge_args : MergerMain.arguments :=
  {| MergerMain.input_files := ["gone.json"; "broken.json"; "object.json"];
     MergerMain.output := None |}.

Definition merge_args_mixed : MergerMain.arguments :=
  {| MergerMain.input_files := ["mixed.json"; "five.json"];
     MergerMain.output := Some "out.json" |}.

End MoreExamples.

(** * Facts *)
(** ** The error monad *)

Lemma bind_returned {A B : Type} (r : result A) (f : A -> result B) (b : B) :
  bind r f = Returned b -> exists a, r = Returned a /\ f a = Returned b.
Proof.
  destruct r as [a|e]; simpl; intros H; [eauto | discriminate].
Qed.

(** ** Dictionaries *)

Section DictFacts.
Context {K V : Type} (eqb : K -> K -> bool).

Lemma dict_get_in (k : K) (d : list (K * V)) (v : V) :
  dict_get eqb k d = Some v -> exists k', In (k', v) d /\ eqb k' k = true.
Proof.
  induction d as [|[k' v'] d IH]; simpl; [discriminate|].
  destruct (eqb k' k) eqn:E; intros H.
  - injection H as <-. exists k'. auto.
  - destruct (IH H) as (k'' & Hin & Hk). exists k''. auto.
Qed.

Lemma dict_get_value_in (k : K) (d : list (K * V)) (v : V) :
  dict_get eqb k d = Some v -> In v (dict_values d).
Proof.
  intros H. destruct (dict_get_in _ _ _ H) as (k' & Hin & _).
  unfold dict_values. change v with (snd (k', v)). now apply in_map.
Qed.

Lemma dict_set_values (k : K) (v : V) (d : list (K * V)) (x : V) :
  In x (dict_values (dict_set eqb k v d)) -> x = v \/ In x (dict_values d).
Proof.
  unfold dict_values.
  induction d as [|[k' v'] d IH]; simpl.
  - intros [H|[]]; auto.
  - destruct (eqb k' k); simpl; intros [H|H]; auto.
    destruct (IH H); auto.
Qed.

(** Assigning to a key never moves the slot another lookup lands on: the
    lookup finds what it found before, or the value just stored, in the
    slot both keys share. *)
Lemma dict_get_set_other (k0 k : K) (v r : V) (d : list (K * V)) :
  dict_get eqb k0 d = Some r ->
  dict_get eqb k0 (dict_set eqb k v d) = Some r \/
  (dict_get eqb k0 (dict_set eqb k v d) = Some v /\ dict_get eqb k d = Some r).
Proof.
  induction d as [|[k' v'] d IH]; simpl; [discriminate|].
  destruct (eqb k' k) eqn:Ek; simpl; destruct (eqb k' k0) eqn:E0; auto.
Qed.

Lemma dict_get_set_same (k : K) (v : V) (d : list (K * V)) :
  eqb k k = true -> dict_get eqb k (dict_set eqb k v d) = Some v.
Proof.
  intros Hk. induction d as [|[k' v'] d IH]; simpl.
  - now rewrite Hk.
  - destruct (eqb k' k) eqn:E; simpl; rewrite E; auto.
Qed.

Lemma dict_set_absent (k : K) (v : V) (d : list (K * V)) :
  dict_get eqb k d = None -> dict_set eqb k v d = d ++ [(k, v)].
Proof.
  induction d as [|[k' v'] d IH]; simpl; auto.
  destruct (eqb k' k); [discriminate|]. intros H. now rewrite IH.
Qed.

Lemma dict_set_keys_present (k : K) (v r : V) (d : list (K * V)) :
  dict_get eqb k d = Some r -> dict_keys (dict_set eqb k v d) = dict_keys d.
Proof.
  unfold dict_keys.
  induction d as [|[k' v'] d IH]; simpl; [discriminate|].
  destruct (eqb k' k); simpl; auto. intros H. now rewrite IH.
Qed.

(** When the test agrees with equality on the keys in use and no key is
    stored twice, a dict is a finite map. *)
Section Exact.
Variable k : K.
Variable d : list (K * V).
Hypothesis exact : forall k', In k' (dict_keys d) -> eqb k' k = true <-> k' = k.

Lemma dict_get_none : dict_get eqb k d = None <-> ~ In k (dict_keys d).
Proof.
  revert exact. unfold dict_keys.
  induction d as [|[k' v'] d' IH]; simpl; intros exact.
  - tauto.
  - destruct (eqb k' k) eqn:E.
    + split; [discriminate|]. intros H. exfalso. apply H. left.
      apply exact; auto.
    + rewrite IH by (intros; apply exact; auto).
      split; [|tauto]. intros H [H1|H1]; [|tauto].
      apply exact in H1; auto. congruence.
Qed.

Lemma dict_get_some (v : V) :
  NoDup (dict_keys d) -> In (k, v) d -> dict_get eqb k d = Some v.
Proof.
  revert exact. unfold dict_keys.
  induction d as [|[k' v'] d' IH]; simpl; intros exact Hnd; [tauto|].
  inversion Hnd as [|? ? Hni Hnd']; subst.
  intros [H|H].
  - injection H as -> ->.
    assert (E : eqb k k = true) by (apply exact; auto). now rewrite E.
  - destruct (eqb k' k) eqn:E.
    + apply exact in E; auto. subst k'. exfalso. apply Hni.
      change k with (fst (k, v)). now apply in_map.
    + apply IH; auto.
Qed.

Lemma dict_set_in (v : V) (k1 : K) (v1 : V) :
  NoDup (dict_keys d) ->
  In (k1, v1) (dict_set eqb k v d) ->
  (k1 = k /\ v1 = v) \/ (k1 <> k /\ In (k1, v1) d).
Proof.
  revert exact. unfold dict_keys.
  induction d as [|[k' v'] d' IH]; simpl; intros exact Hnd.
  - intros [H|[]]. injection H as <- <-. auto.
  - inversion Hnd as [|? ? Hni Hnd']; subst.
    destruct (eqb k' k) eqn:E; simpl.
    + apply exact in E; auto. subst k'. intros [H|H].
      * injection H as <- <-. auto.
      * right. split; auto. intros ->. apply Hni.
        change k with (fst (k, v1)). now apply in_map.
    + assert (Hne : k' <> k).
      { intros ->. assert (Hk : eqb k k = true) by (apply exact; auto). congruence. }
      intros [H|H].
      * injection H as <- <-. auto.
      * destruct IH as [?|[? ?]]; auto.
Qed.
End Exact.
End DictFacts.

(** ** The merger *)

Module MergerFacts.
Import Merger.

Lemma py_eq_refl (k : json) : hashable k = true -> py_eq k k = true.
Proof.
  destruct k as [|b|z|s|l|o]; simpl; try discriminate; intros _; auto.
  - destruct b; reflexivity.
  - apply Z.eqb_refl.
  - apply String.eqb_refl.
Qed.

Lemma int_stars_field (e : json) :
  int_stars e = true -> field "stars_count" e = Some (JInt (stars e)).
Proof.
  unfold int_stars, stars.
  destruct (field "stars_count" e) as [[]|]; try discriminate; auto.
Qed.

Lemma valid_entry_fields (e : json) :
  valid_entry e = true ->
  exists n s, field "name" e = Some n /\ field "stars_count" e = Some s.
Proof.
  unfold valid_entry.
  destruct (field "name" e) as [n|]; [|discriminate].
  destruct (field "stars_count" e) as [s|]; [|discriminate]. eauto.
Qed.

(** *** One entry *)

Lemma process_project_invalid (p : string) (e : json) (d : merged) :
  valid_entry e = false ->
  process_project p e d = Returned (d, [WarningInvalidEntry p]).
Proof.
  unfold valid_entry, process_project.
  destruct (field "name" e); [|reflexivity].
  destruct (field "stars_count" e); [discriminate|reflexivity].
Qed.

Lemma process_project_covered (p : string) (e : json) (d : merged) :
  covered d e -> process_project p e d = Returned (d, []).
Proof.
  intros (n & r & Hn & Hh & Hg & Hr & He & Hle).
  unfold process_project, py_contains, dict_mem.
  rewrite Hn, (int_stars_field _ He), Hh, Hg. simpl.
  rewrite (int_stars_field _ Hr). simpl.
  destruct (Z.gtb_spec (stars e) (stars r)); [lia | reflexivity].
Qed.

Lemma process_project_step (p : string) (e : json) (d d' : merged)
    (out : list message) :
  Forall (fun r => int_stars r = true) (dict_values d) ->
  valid_entry e = true -> int_stars e = true ->
  process_project p e d = Returned (d', out) ->
  Forall (fun r => int_stars r = true) (dict_values d') /\
  covered d' e /\
  (forall e0, covered d e0 -> covered d' e0).
Proof.
  intros Hd Hv He.
  destruct (valid_entry_fields _ Hv) as (n & s & Hn & Hs).
  assert (Hset : hashable n = true ->
            Forall (fun r => int_stars r = true)
              (dict_values (dict_set py_eq n e d)) /\
            covered (dict_set py_eq n e d) e).
  { intros Hh. split.
    - apply Forall_forall. intros x Hx.
      apply dict_set_values in Hx. destruct Hx as [->|Hx]; auto.
      rewrite Forall_forall in Hd. auto.
    - exists n, e. repeat split; auto; [|lia].
      apply dict_get_set_same. now apply py_eq_refl. }
  unfold process_project, py_contains, dict_mem.
  rewrite Hn, (int_stars_field _ He).
  destruct (hashable n) eqn:Hh; simpl; [|discriminate].
  destruct (dict_get py_eq n d) as [r|] eqn:Hg.
  - assert (Hr : int_stars r = true).
    { rewrite Forall_forall in Hd. apply Hd.
      eapply dict_get_value_in; eauto. }
    rewrite (int_stars_field _ Hr). simpl.
    destruct (Z.gtb_spec (stars e) (stars r)) as [Hgt|Hle];
      intros H; injection H as <- <-.
    + destruct (Hset eq_refl) as [H1 H2]. repeat split; auto.
      intros e0 (n0 & r0 & Hn0 & Hh0 & Hg0 & Hr0 & He0 & Hle0).
      destruct (dict_get_set_other py_eq n0 n e r0 d Hg0) as [H|[H H']].
      * exists n0, r0. repeat split; auto.
      * exists n0, e. repeat split; auto.
        assert (r0 = r) by congruence. subst r0. lia.
    + repeat split; auto.
      exists n, r. repeat split; auto.
  - intros H; injection H as <- <-.
    destruct (Hset eq_refl) as [H1 H2]. repeat split; auto.
    intros e0 (n0 & r0 & Hn0 & Hh0 & Hg0 & Hr0 & He0 & Hle0).
    destruct (dict_get_set_other py_eq n0 n e r0 d Hg0) as [H|[H H']].
    + exists n0, r0. repeat split; auto.
    + congruence.
Qed.

(** *** The entries of one file *)

Lemma process_projects_covers (p : string) (es : list json) :
  forall (d d' : merged) (out : list message),
  Forall (fun r => int_stars r = true) (dict_values d) ->
  forallb int_stars (filter valid_entry es) = true ->
  process_projects p es d = Returned (d', out) ->
  Forall (fun r => int_stars r = true) (dict_values d') /\
  (forall e, In e (filter valid_entry es) -> covered d' e) /\
  (forall e0, covered d e0 -> covered d' e0).
Proof.
  induction es as [|e es IH]; simpl; intros d d' out Hd Hes H.
  - injection H as <- <-. repeat split; auto. intros e [].
  - apply bind_returned in H. destruct H as ([m1 o1] & H1 & H).
    apply bind_returned in H. destruct H as ([m2 o2] & H2 & H).
    injection H as <- <-.
    destruct (valid_entry e) eqn:Hv.
    + simpl in Hes. apply andb_prop in Hes. destruct Hes as [He Hes].
      destruct (process_project_step _ _ _ _ _ Hd Hv He H1) as (A & B & C).
      destruct (IH _ _ _ A Hes H2) as (A' & B' & C').
      repeat split; auto. intros x [<-|Hx]; auto.
    + rewrite (process_project_invalid _ _ _ Hv) in H1.
      injection H1 as <- <-.
      destruct (IH _ _ _ Hd Hes H2) as (A' & B' & C'). repeat split; auto.
Qed.

Lemma process_projects_fixed (p : string) (es : list json) (d : merged) :
  (forall e, In e (filter valid_entry es) -> covered d e) ->
  exists out, process_projects p es d = Returned (d, out).
Proof.
  induction es as [|e es IH]; simpl; intros H; [eauto|].
  destruct (valid_entry e) eqn:Hv.
  - rewrite (process_project_covered p e d) by (apply H; now left).
    simpl. destruct IH as [out ->]; [intros; apply H; now right|].
    simpl. eauto.
  - rewrite (process_project_invalid _ _ _ Hv). simpl.
    destruct IH as [out ->]; auto. simpl. eauto.
Qed.

(** C2, as amended. Merging a file with itself gives what merging it
    once gives, a list or the exception of an unhashable name, for every
    file whose entries with a [name] and a [stars_count] have an integer
    [stars_count]. *)
Theorem merge_twice_same (fs : filesystem) (f : string) :
  forallb int_stars (file_entries fs f) = true ->
  merge_projects fs [f; f] = merge_projects fs [f].
Proof.
  unfold merge_projects, merge_run, file_entries. simpl.
  unfold process_file.
  destruct (fs f) as [| |e|v]; try reflexivity.
  destruct v as [| | | |es|]; try reflexivity.
  intros Hes.
  destruct (process_projects f es []) as [[d out]|e] eqn:H1; [|reflexivity].
  simpl.
  destruct (process_projects_covers f es [] d out (Forall_nil _) Hes H1)
    as (_ & Hcov & _).
  destruct (process_projects_fixed f es d Hcov) as [out' ->].
  reflexivity.
Qed.

(** *** Order of first occurrence *)

Lemma first_seen_snoc (l : list string) (x : string) :
  first_seen (l ++ [x]) =
  if in_dec string_dec x (first_seen l) then first_seen l
  else first_seen l ++ [x].
Proof. unfold first_seen. now rewrite fold_left_app. Qed.

Lemma first_seen_in (l : list string) (x : string) :
  In x (first_seen l) <-> In x l.
Proof.
  induction l as [|y l IH] using rev_ind; [reflexivity|].
  rewrite first_seen_snoc, in_app_iff. simpl.
  destruct (in_dec string_dec y (first_seen l)) as [Hy|Hy].
  - rewrite IH. split; [tauto|]. intros [H|[<-|[]]]; auto. now apply IH.
  - rewrite in_app_iff, IH. simpl. tauto.
Qed.

Lemma first_seen_nodup (l : list string) : NoDup (first_seen l).
Proof.
  induction l as [|y l IH] using rev_ind; [constructor|].
  rewrite first_seen_snoc.
  destruct (in_dec string_dec y (first_seen l)) as [Hy|Hy]; auto.
  apply NoDup_app; repeat split; auto.
  - constructor; [intros []|constructor].
  - intros a Ha [<-|[]]. contradiction.
Qed.

Lemma index_of_app (l : list string) (x y : string) :
  In x l -> index_of x (l ++ [y]) = index_of x l.
Proof.
  induction l as [|z l IH]; simpl; [tauto|].
  destruct (String.eqb_spec z x); auto.
  intros [H|H]; [contradiction|]. now rewrite IH.
Qed.

Lemma index_of_bound (l : list string) (x : string) :
  In x l -> (index_of x l < List.length l)%nat.
Proof.
  induction l as [|z l IH]; simpl; [tauto|].
  destruct (String.eqb_spec z x); [lia|].
  intros [H|H]; [contradiction|]. apply IH in H. lia.
Qed.

Lemma index_of_absent (l : list string) (x : string) :
  ~ In x l -> index_of x (l ++ [x]) = List.length l.
Proof.
  induction l as [|z l IH]; simpl.
  - now rewrite String.eqb_refl.
  - intros H. destruct (String.eqb_spec z x); [tauto|].
    rewrite IH; tauto.
Qed.

Lemma strongly_sorted_snoc {A : Type} (R : A -> A -> Prop) (l : list A) (x : A) :
  StronglySorted R l -> Forall (fun a => R a x) l ->
  StronglySorted R (l ++ [x]).
Proof.
  induction 1 as [|a l Hs IH Ha]; simpl; intros Hx.
  - repeat constructor.
  - inversion Hx; subst. constructor; auto.
    apply Forall_app. split; auto.
Qed.

Lemma strongly_sorted_weaken {A : Type} (R R' : A -> A -> Prop) (l : list A) :
  (forall a b, In a l -> In b l -> R a b -> R' a b) ->
  StronglySorted R l -> StronglySorted R' l.
Proof.
  intros H Hs. induction Hs as [|a l Hs IH Ha]; constructor.
  - apply IH. intros; apply H; simpl; auto.
  - rewrite Forall_forall in *. intros b Hb. apply H; simpl; auto.
Qed.

Lemma first_seen_sorted (l : list string) :
  StronglySorted (fun a b => (index_of a l < index_of b l)%nat) (first_seen l).
Proof.
  induction l as [|y l IH] using rev_ind; [constructor|].
  assert (Hold : StronglySorted
            (fun a b => (index_of a (l ++ [y]) < index_of b (l ++ [y]))%nat)
            (first_seen l)).
  { eapply strongly_sorted_weaken; [|exact IH]. simpl.
    intros a b Ha Hb.
    apply (proj1 (first_seen_in _ _)) in Ha.
    apply (proj1 (first_seen_in _ _)) in Hb.
    rewrite (index_of_app l a y Ha), (index_of_app l b y Hb). auto. }
  rewrite first_seen_snoc.
  destruct (in_dec string_dec y (first_seen l)) as [Hy|Hy]; auto.
  apply strongly_sorted_snoc; auto.
  apply Forall_forall. intros a Ha. apply (proj1 (first_seen_in _ _)) in Ha.
  rewrite first_seen_in in Hy.
  rewrite (index_of_app l a y Ha), (index_of_absent l y Hy).
  now apply index_of_bound.
Qed.

(** *** Records of the data model *)

Lemma str_name_field (e : json) :
  str_name e = true -> field "name" e = Some (JStr (name e)).
Proof.
  unfold str_name, name.
  destruct (field "name" e) as [[]|]; try discriminate; auto.
Qed.

Lemma typed_valid (e : json) :
  str_name e = true -> int_stars e = true -> valid_entry e = true.
Proof.
  intros Hn Hs. unfold valid_entry.
  now rewrite (str_name_field _ Hn), (int_stars_field _ Hs).
Qed.

Lemma first_of_highest_in (seen : list json) (r : json) :
  first_of_highest seen r -> In r seen.
Proof.
  intros (pre & post & -> & _). apply in_app_iff. right. now left.
Qed.

Lemma first_of_highest_bound (seen : list json) (r e : json) :
  first_of_highest seen r -> In e seen ->
  field "name" e = field "name" r -> stars e <= stars r.
Proof.
  intros (pre & post & -> & Hpre & Hpost) Hin Hn.
  apply in_app_iff in Hin. destruct Hin as [H|[<-|H]].
  - specialize (Hpre _ H Hn). lia.
  - lia.
  - auto.
Qed.

Lemma first_of_highest_later (seen : list json) (r e : json) :
  first_of_highest seen r ->
  (field "name" e = field "name" r -> stars e <= stars r) ->
  first_of_highest (seen ++ [e]) r.
Proof.
  intros (pre & post & -> & Hpre & Hpost) He.
  exists pre, (post ++ [e]). split; [now rewrite <- app_assoc|].
  split; auto. intros x Hx. apply in_app_iff in Hx.
  destruct Hx as [Hx|[<-|[]]]; auto.
Qed.

Lemma first_of_highest_new (seen : list json) (e : json) :
  (forall x, In x seen -> field "name" x = field "name" e ->
             stars x < stars e) ->
  first_of_highest (seen ++ [e]) e.
Proof.
  intros H. exists seen, []. repeat split; auto. intros x [].
Qed.

Section Invariant.
Variable seen : list json.
Variable d : merged.
Hypothesis inv : merged_inv seen d.
Hypothesis typed :
  Forall (fun e => str_name e = true /\ int_stars e = true) seen.

Lemma inv_key_name (k : json) :
  In k (dict_keys d) <-> exists e, In e seen /\ k = JStr (name e).
Proof.
  rewrite (inv_keys _ _ inv), in_map_iff. split.
  - intros (s & <- & Hs). apply first_seen_in, in_map_iff in Hs.
    destruct Hs as (e & <- & He). eauto.
  - intros (e & He & ->). exists (name e). split; auto.
    apply first_seen_in, in_map. auto.
Qed.

Lemma inv_exact (n : string) (k : json) :
  In k (dict_keys d) -> py_eq k (JStr n) = true <-> k = JStr n.
Proof.
  intros Hk. apply inv_key_name in Hk. destruct Hk as (e & _ & ->).
  simpl. rewrite String.eqb_eq. split; congruence.
Qed.

Lemma inv_nodup : NoDup (dict_keys d).
Proof.
  rewrite (inv_keys _ _ inv).
  generalize (first_seen_nodup (map name seen)).
  induction 1 as [|x l Hx Hl IH]; simpl; constructor; auto.
  rewrite in_map_iff. intros (y & Hy & Hin). congruence.
Qed.

Lemma inv_typed (k r : json) :
  In (k, r) d -> str_name r = true /\ int_stars r = true.
Proof.
  intros H. apply (inv_values _ _ inv) in H. destruct H as [_ H].
  apply first_of_highest_in in H.
  rewrite Forall_forall in typed. auto.
Qed.

(** One more entry of the data model: the loop body returns, prints
    nothing and keeps the invariant. *)
Lemma process_project_inv (p : string) (e : json) :
  str_name e = true -> int_stars e = true ->
  exists d', process_project p e d = Returned (d', []) /\
             merged_inv (seen ++ [e]) d'.
Proof.
  intros Hn Hs.
  pose proof (str_name_field _ Hn) as Fn.
  pose proof (int_stars_field _ Hs) as Fs.
  unfold process_project, py_contains, dict_mem. rewrite Fn, Fs. simpl.
  destruct (dict_get py_eq (JStr (name e)) d) as [r|] eqn:Hg.
  - (* the name is known *)
    destruct (dict_get_in _ _ _ _ Hg) as (k & Hin & Hk).
    apply inv_exact in Hk;
      [|change k with (fst (k, r)); now apply in_map]. subst k.
    destruct (inv_values _ _ inv _ _ Hin) as [Rn Rmax].
    destruct (inv_typed _ _ Hin) as [_ Rs].
    rewrite (int_stars_field _ Rs). simpl.
    assert (Hkeys : first_seen (map name (seen ++ [e])) =
                    first_seen (map name seen)).
    { rewrite map_app. simpl. rewrite first_seen_snoc.
      destruct (in_dec string_dec (name e) (first_seen (map name seen)))
        as [|Hno]; auto.
      exfalso. apply Hno.
      assert (Hk : In (JStr (name e)) (dict_keys d))
        by (change (JStr (name e)) with (fst (JStr (name e), r));
            now apply in_map).
      rewrite (inv_keys _ _ inv), in_map_iff in Hk.
      destruct Hk as (s & Heq & Hs'). congruence. }
    destruct (Z.gtb_spec (stars e) (stars r)) as [Hgt|Hle].
    + eexists. split; [reflexivity|]. split.
      * rewrite (dict_set_keys_present _ _ _ _ _ Hg), Hkeys.
        apply (inv_keys _ _ inv).
      * intros k1 v1 H1.
        apply dict_set_in in H1;
          [|intros; now apply inv_exact|apply inv_nodup].
        destruct H1 as [[-> ->]|[Hne H1]].
        -- split; auto. apply first_of_highest_new.
           intros x Hx Hxn.
           assert (stars x <= stars r); [|lia].
           eapply first_of_highest_bound; eauto. congruence.
        -- destruct (inv_values _ _ inv _ _ H1) as [Vn Vmax].
           split; auto. apply first_of_highest_later; auto.
           intros Heq. congruence.
    + exists d. split; [reflexivity|]. split.
      * rewrite Hkeys. apply (inv_keys _ _ inv).
      * intros k1 v1 H1.
        destruct (inv_values _ _ inv _ _ H1) as [Vn Vmax].
        split; auto. apply first_of_highest_later; auto.
        intros Heq. assert (k1 = JStr (name e)) by congruence. subst k1.
        assert (Hv : dict_get py_eq (JStr (name e)) d = Some v1).
        { apply dict_get_some; auto;
            [intros; now apply inv_exact|apply inv_nodup]. }
        assert (v1 = r) by congruence. now subst v1.
  - (* a new name *)
    assert (Hnew : ~ In (JStr (name e)) (dict_keys d)).
    { apply (dict_get_none py_eq (JStr (name e)) d); auto.
      intros; now apply inv_exact. }
    assert (Hfresh : forall x, In x seen -> field "name" x <> field "name" e).
    { intros x Hx Heq. apply Hnew. apply inv_key_name.
      exists x. split; auto.
      rewrite Forall_forall in typed. destruct (typed _ Hx) as [Xn _].
      rewrite (str_name_field _ Xn), Fn in Heq. congruence. }
    eexists. split; [reflexivity|].
    rewrite (dict_set_absent _ _ _ _ Hg). split.
    + unfold dict_keys. rewrite !map_app. simpl.
      rewrite first_seen_snoc.
      destruct (in_dec string_dec (name e) (first_seen (map name seen)))
        as [Hyes|_].
      * exfalso. apply Hnew. rewrite (inv_keys _ _ inv). now apply in_map.
      * rewrite map_app. simpl. f_equal. apply (inv_keys _ _ inv).
    + intros k1 v1 H1. apply in_app_iff in H1.
      destruct H1 as [H1|[H1|[]]].
      * destruct (inv_values _ _ inv _ _ H1) as [Vn Vmax].
        split; auto. apply first_of_highest_later; auto.
        intros Heq. exfalso.
        apply (Hfresh v1); [now apply (first_of_highest_in seen)|].
        congruence.
      * injection H1 as <- <-. split; auto.
        apply first_of_highest_new. intros x Hx Heq.
        now destruct (Hfresh x Hx).
Qed.
End Invariant.

(** *** The loops *)

Lemma process_projects_inv (p : string) (es : list json) :
  forall (seen : list json) (d : merged),
  merged_inv seen d -> Forall typed_entry seen ->
  forallb (fun e => str_name e && int_stars e) (filter valid_entry es) = true ->
  exists d' out,
    process_projects p es d = Returned (d', out) /\
    merged_inv (seen ++ filter valid_entry es) d' /\
    Forall typed_entry (seen ++ filter valid_entry es).
Proof.
  induction es as [|e es IH]; simpl; intros seen d Hinv Hty Hes.
  - exists d, []. rewrite app_nil_r. auto.
  - destruct (valid_entry e) eqn:Hv.
    + simpl in Hes. apply andb_prop in Hes. destruct Hes as [He Hes].
      apply andb_prop in He. destruct He as [Hn Hs].
      destruct (process_project_inv seen d Hinv Hty p e Hn Hs)
        as (d1 & H1 & Hinv1).
      assert (Hty1 : Forall typed_entry (seen ++ [e])).
      { apply Forall_app. split; auto. repeat constructor; auto. }
      destruct (IH _ _ Hinv1 Hty1 Hes) as (d' & out & H2 & Hinv' & Hty').
      rewrite H1. simpl. rewrite H2. simpl.
      exists d', out. rewrite <- app_assoc in Hinv', Hty'. auto.
    + rewrite (process_project_invalid _ _ _ Hv). simpl.
      destruct (IH _ _ Hinv Hty Hes) as (d' & out & H2 & Hinv' & Hty').
      rewrite H2. simpl. eauto.
Qed.

Lemma process_files_inv (fs : filesystem) (input_files : list string) :
  forall (seen : list json) (d : merged),
  merged_inv seen d -> Forall typed_entry seen ->
  loads fs input_files = true ->
  conforming fs input_files = true ->
  exists d' out,
    process_files fs input_files d = Returned (d', out) /\
    merged_inv (seen ++ entries fs input_files) d' /\
    Forall typed_entry (seen ++ entries fs input_files).
Proof.
  unfold conforming, entries, loads.
  induction input_files as [|p rest IH]; simpl; intros seen d Hinv Hty Hl Hc.
  - exists d, []. rewrite app_nil_r. auto.
  - rewrite forallb_app in Hc. apply andb_prop in Hc. destruct Hc as [Hp Hrest].
    apply andb_prop in Hl. destruct Hl as [Hlp Hlrest].
    assert (H1 : exists d1 out1,
              process_file fs p d = Returned (d1, out1) /\
              merged_inv (seen ++ file_entries fs p) d1 /\
              Forall typed_entry (seen ++ file_entries fs p)).
    { unfold process_file, file_entries, aborts in *.
      destruct (fs p) as [| |e|[| | | |es|]];
        try discriminate;
        try (eexists; eexists; rewrite app_nil_r; eauto; fail).
      now apply process_projects_inv. }
    destruct H1 as (d1 & out1 & H1 & Hinv1 & Hty1).
    destruct (IH _ _ Hinv1 Hty1 Hlrest Hrest) as (d' & out & H2 & Hinv' & Hty').
    rewrite H1. simpl. rewrite H2. simpl.
    rewrite <- app_assoc in Hinv', Hty'. eauto.
Qed.

(** A merge that returns has met no file whose load raises. *)
Lemma process_files_loads (fs : filesystem) (input_files : list string) :
  forall (d d' : merged) (out : list message),
  process_files fs input_files d = Returned (d', out) ->
  loads fs input_files = true.
Proof.
  unfold loads.
  induction input_files as [|p rest IH]; simpl; intros d d' out H; auto.
  apply bind_returned in H. destruct H as ([m1 o1] & H1 & H).
  apply bind_returned in H. destruct H as ([m2 o2] & H2 & H).
  rewrite (IH _ _ _ H2), andb_true_r.
  unfold process_file in H1. unfold aborts.
  destruct (fs p); try reflexivity. discriminate.
Qed.

Lemma merge_loads (fs : filesystem) (input_files : list string)
    (merged_list : list json) :
  merge_projects fs input_files = Returned merged_list ->
  loads fs input_files = true.
Proof.
  unfold merge_projects, merge_run, fmap. intros H.
  apply bind_returned in H. destruct H as ([l o] & H & _).
  apply bind_returned in H. destruct H as ([d o'] & H & _).
  eapply process_files_loads; eauto.
Qed.

Lemma loads_perm (fs : filesystem) (l l' : list string) :
  Permutation l l' -> loads fs l = true -> loads fs l' = true.
Proof.
  unfold loads. intros HP H. rewrite forallb_forall in *.
  intros x Hx. apply H. eapply Permutation_in; [symmetry; exact HP|exact Hx].
Qed.

Lemma merged_inv_empty : merged_inv [] [].
Proof. split; [reflexivity | intros k r []]. Qed.

(** On conforming input the merge returns the values of a dict that
    satisfies the invariant for all the entries. *)
Lemma merge_conforming (fs : filesystem) (input_files : list string) :
  loads fs input_files = true ->
  conforming fs input_files = true ->
  exists d,
    merge_projects fs input_files = Returned (dict_values d) /\
    merged_inv (entries fs input_files) d /\
    Forall typed_entry (entries fs input_files).
Proof.
  intros Hl Hc.
  destruct (process_files_inv fs input_files [] [] merged_inv_empty
              (Forall_nil _) Hl Hc) as (d & out & H & Hinv & Hty).
  exists d. unfold merge_projects, merge_run. rewrite H. simpl. auto.
Qed.

Lemma values_names (d : merged) :
  (forall k r, In (k, r) d -> field "name" r = Some k) ->
  map (field "name") (dict_values d) = map Some (dict_keys d).
Proof.
  unfold dict_values, dict_keys.
  induction d as [|[k r] d IH]; simpl; intros H; auto.
  rewrite (H k r) by auto. f_equal. apply IH. intros; apply H; auto.
Qed.

Lemma values_name_strings (d : merged) (l : list string) :
  map (field "name") (dict_values d) = map Some (map JStr l) ->
  map name (dict_values d) = l.
Proof.
  unfold dict_values. revert l.
  induction d as [|[k r] d IH]; intros [|s l]; simpl; try discriminate; auto.
  intros H. injection H as H1 H2. unfold name at 1. rewrite H1.
  f_equal. auto.
Qed.

Lemma merged_names (seen : list json) (d : merged) :
  merged_inv seen d ->
  map name (dict_values d) = first_seen (map name seen).
Proof.
  intros Hinv. apply values_name_strings.
  rewrite values_names, (inv_keys _ _ Hinv); auto.
  intros k r H. now apply (inv_values _ _ Hinv).
Qed.

Lemma value_in (d : merged) (r : json) :
  In r (dict_values d) -> exists k, In (k, r) d.
Proof.
  unfold dict_values. rewrite in_map_iff.
  intros ([k r'] & <- & H). eauto.
Qed.

Lemma conforming_perm (fs : filesystem) (l l' : list string) :
  Permutation l l' -> conforming fs l = true -> conforming fs l' = true.
Proof.
  unfold conforming, entries. intros HP H.
  rewrite forallb_forall in *. intros x Hx. apply H.
  eapply Permutation_in; [|exact Hx].
  apply Permutation_flat_map. now symmetry.
Qed.

(** *** One record for each name *)

Lemma keyed_set (n : json) (e : json) (d : merged) :
  field "name" e = Some n -> py_eq n n = true ->
  keyed d -> keyed (dict_set py_eq n e d).
Proof.
  intros Hn Hrefl. induction d as [|[k r] d IH]; simpl.
  - intros _. repeat split; eauto. intros r' [].
  - intros (Hk & Hrest & Hd). destruct (py_eq k n) eqn:E; simpl.
    + repeat split; eauto.
    + repeat split; auto. intros r' Hr'.
      apply dict_set_values in Hr'. destruct Hr' as [->|Hr']; eauto.
Qed.

Lemma keyed_nodup (d : merged) :
  keyed d -> NoDup (map (field "name") (dict_values d)).
Proof.
  induction d as [|[k r] d IH]; simpl; [constructor|].
  intros ((n & Hn & Hk) & Hrest & Hd). constructor; auto.
  rewrite in_map_iff. intros (r' & Heq & Hr').
  destruct (Hrest r' Hr') as (n' & Hn' & Hk'). congruence.
Qed.

Lemma process_project_keyed (p : string) (e : json) (d d' : merged)
    (out : list message) :
  keyed d -> process_project p e d = Returned (d', out) -> keyed d'.
Proof.
  intros Hd. unfold process_project, py_contains.
  destruct (field "name" e) as [n|] eqn:Hn;
    [|intros H; injection H as <- <-; auto].
  destruct (field "stars_count" e) as [s|];
    [|intros H; injection H as <- <-; auto].
  destruct (hashable n) eqn:Hh; simpl; [|discriminate].
  pose proof (keyed_set n e d Hn (py_eq_refl n Hh) Hd) as Hset.
  destruct (dict_mem py_eq n d).
  - destruct (dict_get py_eq n d) as [r|]; [|discriminate].
    destruct (field "stars_count" r) as [sr|]; [|discriminate].
    destruct (py_gt s sr) as [[|]|]; simpl; try discriminate;
      intros H; injection H as <- <-; auto.
  - intros H; injection H as <- <-; auto.
Qed.

Lemma process_projects_keyed (p : string) (es : list json) :
  forall (d d' : merged) (out : list message),
  keyed d -> process_projects p es d = Returned (d', out) -> keyed d'.
Proof.
  induction es as [|e es IH]; simpl; intros d d' out Hd H.
  - injection H as <- <-. auto.
  - apply bind_returned in H. destruct H as ([m1 o1] & H1 & H).
    apply bind_returned in H. destruct H as ([m2 o2] & H2 & H).
    injection H as <- <-.
    eapply IH; [|exact H2]. eapply process_project_keyed; eauto.
Qed.

Lemma process_files_keyed (fs : filesystem) (input_files : list string) :
  forall (d d' : merged) (out : list message),
  keyed d -> process_files fs input_files d = Returned (d', out) -> keyed d'.
Proof.
  induction input_files as [|p rest IH]; simpl; intros d d' out Hd H.
  - injection H as <- <-. auto.
  - apply bind_returned in H. destruct H as ([m1 o1] & H1 & H).
    apply bind_returned in H. destruct H as ([m2 o2] & H2 & H).
    injection H as <- <-.
    eapply IH; [|exact H2].
    unfold process_file in H1.
    destruct (fs p) as [| |e|[| | | |es|]];
      try discriminate;
      try (injection H1 as <- <-; auto; fail).
    eapply process_projects_keyed; eauto.
Qed.

Lemma merge_unique (fs : filesystem) (input_files : list string)
    (merged_list : list json) :
  merge_projects fs input_files = Returned merged_list ->
  NoDup (map (field "name") merged_list).
Proof.
  unfold merge_projects, merge_run, fmap. intros H.
  apply bind_returned in H. destruct H as ([l o] & H & H').
  injection H' as <-.
  apply bind_returned in H. destruct H as ([d o'] & H & H').
  injection H' as <- <-.
  apply keyed_nodup. eapply process_files_keyed; [|exact H]. exact I.
Qed.
(** C1, as amended. Whatever the input files hold, a list that
    [merge_projects] returns has at most one record of each name.  When
    no load raises an exception the merger does not catch and the
    records follow the data model (a string [name], an integer
    [stars_count]), it returns such a list, and: each name that occurs
    has its record; the record kept for a name is the first, in reading
    order, of those with the highest [stars_count] of that name, so a
    later record with as many stars does not replace it; and with the
    files in any other order the retained [stars_count] of every name is
    the same. *)
Theorem merge_keeps_highest (fs : filesystem) (input_files : list string) :
  (forall merged_list,
     merge_projects fs input_files = Returned merged_list ->
     NoDup (map (field "name") merged_list)) /\
  (loads fs input_files = true ->
   conforming fs input_files = true ->
   exists merged_list,
     merge_projects fs input_files = Returned merged_list /\
     (forall e, In e (entries fs input_files) ->
        exists r, In r merged_list /\ field "name" r = field "name" e) /\
     (forall r, In r merged_list ->
        first_of_highest (entries fs input_files) r) /\
     (forall reordered, Permutation input_files reordered ->
        exists merged_list',
          merge_projects fs reordered = Returned merged_list' /\
          forall r, In r merged_list ->
            exists r', In r' merged_list' /\
                       field "name" r' = field "name" r /\
                       stars r' = stars r)).
Proof.
  split; [intros l; apply merge_unique|].
  intros Hl Hc.
  destruct (merge_conforming fs input_files Hl Hc) as (d & Hm & Hinv & Hty).
  assert (Hcover : forall fs l d, merged_inv (entries fs l) d ->
            Forall typed_entry (entries fs l) ->
            forall e, In e (entries fs l) ->
            exists r, In r (dict_values d) /\ field "name" r = field "name" e).
  { clear. intros fs l d Hinv Hty e He.
    assert (Hk : In (JStr (name e)) (dict_keys d)).
    { apply (inv_key_name _ _ Hinv). eauto. }
    unfold dict_keys in Hk. apply in_map_iff in Hk.
    destruct Hk as ([k r] & Hk & Hin). simpl in Hk. subst k.
    exists r. split.
    - unfold dict_values. change r with (snd (JStr (name e), r)).
      now apply in_map.
    - rewrite Forall_forall in Hty. destruct (Hty e He) as [Hn _].
      rewrite (str_name_field _ Hn). now apply (inv_values _ _ Hinv). }
  exists (dict_values d). split; [exact Hm|]. split; [|split].
  - now apply Hcover.
  - intros r Hr. apply value_in in Hr. destruct Hr as [k Hr].
    now apply (inv_values _ _ Hinv) in Hr.
  - intros reordered HP.
    pose proof (conforming_perm fs _ _ HP Hc) as Hc'.
    pose proof (loads_perm fs _ _ HP Hl) as Hl'.
    destruct (merge_conforming fs reordered Hl' Hc')
      as (d' & Hm' & Hinv' & Hty').
    exists (dict_values d'). split; [exact Hm'|].
    assert (HPe : Permutation (entries fs input_files) (entries fs reordered))
      by now apply Permutation_flat_map.
    intros r Hr. apply value_in in Hr. destruct Hr as [k Hr].
    apply (inv_values _ _ Hinv) in Hr. destruct Hr as [_ Hr].
    pose proof (first_of_highest_in _ _ Hr) as Hin.
    destruct (Hcover fs reordered d' Hinv' Hty' r) as (r' & Hr' & Hn').
    { eapply Permutation_in; eauto. }
    exists r'. repeat split; auto.
    destruct (value_in _ _ Hr') as [k' Hk'].
    apply (inv_values _ _ Hinv') in Hk'. destruct Hk' as [_ Hmax'].
    assert (stars r <= stars r').
    { eapply first_of_highest_bound; eauto.
      eapply Permutation_in; eauto. }
    assert (stars r' <= stars r).
    { eapply first_of_highest_bound; eauto.
      eapply Permutation_in; [symmetry; exact HPe|].
      now apply (first_of_highest_in (entries fs reordered)). }
    lia.
Qed.

(** *** Names of any type *)


Lemma entry_name_field (e n : json) :
  field "name" e = Some n -> entry_name e = n.
Proof. unfold entry_name. now intros ->. Qed.

Lemma named_set (n e : json) (d : merged) :
  field "name" e = Some n -> hashable n = true ->
  named d -> named (dict_set py_eq n e d).
Proof.
  intros Hn Hh. induction d as [|[k0 r0] d IH]; simpl; intros Hd k r Hin.
  - destruct Hin as [Hin|[]]. injection Hin as <- <-.
    rewrite (entry_name_field _ _ Hn). split; auto. now apply py_eq_refl.
  - destruct (py_eq k0 n) eqn:E.
    + destruct Hin as [Hin|Hin].
      * injection Hin as <- <-. rewrite (entry_name_field _ _ Hn).
        split; auto. apply (Hd k0 r0). now left.
      * apply Hd. now right.
    + destruct Hin as [Hin|Hin].
      * apply Hd. now left.
      * apply IH; auto. intros k' r' H'. apply Hd. now right.
Qed.

Lemma dict_mem_keys (n : json) (d : merged) :
  dict_mem py_eq n d = existsb (fun k => py_eq k n) (dict_keys d).
Proof.
  unfold dict_mem. induction d as [|[k r] d IH]; simpl; auto.
  destruct (py_eq k n); auto.
Qed.

(** One entry: the dict stays named, its keys grow by the name of the
    entry when that name is new, and a name that is found stays found. *)
Ltac parts := split; [|split; [|split]].

Lemma process_project_names (p : string) (e : json) (d d' : merged)
    (out : list message) :
  process_project p e d = Returned (d', out) ->
  (named d -> named d') /\
  dict_keys d' =
    fold_left see (map entry_name (filter valid_entry [e])) (dict_keys d) /\
  (valid_entry e = true -> dict_mem py_eq (entry_name e) d' = true) /\
  (forall n, dict_mem py_eq n d = true -> dict_mem py_eq n d' = true).
Proof.
  intros H.
  assert (Hkeep : forall n0, dict_mem py_eq n0 d = true ->
            forall n1 v, dict_mem py_eq n0 (dict_set py_eq n1 v d) = true).
  { intros n0 H0 n1 v. unfold dict_mem in *.
    destruct (dict_get py_eq n0 d) as [r0|] eqn:E; [|discriminate].
    destruct (dict_get_set_other py_eq n0 n1 v r0 d E) as [->|[-> _]];
      reflexivity. }
  unfold process_project, py_contains in H.
  simpl filter. unfold valid_entry.
  destruct (field "name" e) as [n|] eqn:Hn;
    [|injection H as <- <-; parts; auto; discriminate].
  destruct (field "stars_count" e) as [s|];
    [|injection H as <- <-; parts; auto; discriminate].
  simpl map. simpl fold_left. rewrite !(entry_name_field _ _ Hn).
  destruct (hashable n) eqn:Hh; simpl in H; [|discriminate].
  assert (Hfound : dict_mem py_eq n (dict_set py_eq n e d) = true).
  { unfold dict_mem.
    now rewrite (dict_get_set_same py_eq n e d (py_eq_refl n Hh)). }
  unfold see. rewrite <- dict_mem_keys.
  destruct (dict_mem py_eq n d) eqn:Hm; unfold dict_mem in Hm;
    destruct (dict_get py_eq n d) as [r|] eqn:Hg; try discriminate.
  - destruct (field "stars_count" r) as [sr|]; [|discriminate].
    destruct (py_gt s sr) as [[|]|]; simpl in H; try discriminate;
      injection H as <- <-; parts; auto.
    + now apply named_set.
    + now apply (dict_set_keys_present py_eq n e r d).
    + intros _. unfold dict_mem. now rewrite Hg.
  - injection H as <- <-. parts; auto.
    + now apply named_set.
    + rewrite (dict_set_absent py_eq n e d Hg).
      unfold dict_keys. now rewrite map_app.
Qed.

Lemma process_projects_names (p : string) (es : list json) :
  forall (d d' : merged) (out : list message),
  process_projects p es d = Returned (d', out) ->
  (named d -> named d') /\
  dict_keys d' =
    fold_left see (map entry_name (filter valid_entry es)) (dict_keys d) /\
  (forall e, In e (filter valid_entry es) ->
     dict_mem py_eq (entry_name e) d' = true) /\
  (forall n, dict_mem py_eq n d = true -> dict_mem py_eq n d' = true).
Proof.
  induction es as [|e es IH]; intros d d' out H.
  - simpl in H. injection H as <- <-. parts; auto; intros ? [].
  - simpl in H.
    apply bind_returned in H. destruct H as ([m1 o1] & H1 & H).
    apply bind_returned in H. destruct H as ([m2 o2] & H2 & H).
    injection H as <- <-.
    destruct (process_project_names _ _ _ _ _ H1) as (A1 & B1 & C1 & D1).
    destruct (IH _ _ _ H2) as (A2 & B2 & C2 & D2).
    parts; auto.
    + rewrite B2, B1.
      change (e :: es) with ([e] ++ es).
      now rewrite filter_app, map_app, fold_left_app.
    + simpl. destruct (valid_entry e) eqn:Hv; auto.
      intros x [<-|Hx]; auto.
Qed.

Lemma process_files_names (fs : filesystem) (input_files : list string) :
  forall (d d' : merged) (out : list message),
  process_files fs input_files d = Returned (d', out) ->
  (named d -> named d') /\
  dict_keys d' =
    fold_left see (map entry_name (entries fs input_files)) (dict_keys d) /\
  (forall e, In e (entries fs input_files) ->
     dict_mem py_eq (entry_name e) d' = true) /\
  (forall n, dict_mem py_eq n d = true -> dict_mem py_eq n d' = true).
Proof.
  unfold entries.
  induction input_files as [|p rest IH]; intros d d' out H.
  - simpl in H. injection H as <- <-. parts; auto; intros ? [].
  - simpl in H.
    apply bind_returned in H. destruct H as ([m1 o1] & H1 & H).
    apply bind_returned in H. destruct H as ([m2 o2] & H2 & H).
    injection H as <- <-.
    assert (F : (named d -> named m1) /\
                dict_keys m1 =
                  fold_left see (map entry_name (file_entries fs p))
                    (dict_keys d) /\
                (forall e, In e (file_entries fs p) ->
                   dict_mem py_eq (entry_name e) m1 = true) /\
                (forall n, dict_mem py_eq n d = true ->
                           dict_mem py_eq n m1 = true)).
    { unfold process_file in H1. unfold file_entries.
      destruct (fs p) as [| |e|[| | | |es|]];
        try discriminate;
        try (injection H1 as <- <-; parts; auto; intros e []; fail).
      eapply process_projects_names; eauto. }
    destruct F as (A1 & B1 & C1 & D1).
    destruct (IH _ _ _ H2) as (A2 & B2 & C2 & D2).
    parts; auto.
    + rewrite B2, B1. simpl. now rewrite map_app, fold_left_app.
    + simpl. intros x Hx. apply in_app_iff in Hx. destruct Hx; auto.
Qed.

Lemma named_values (d : merged) :
  named d ->
  Forall2 (fun n r => py_eq n (entry_name r) = true)
    (dict_keys d) (dict_values d).
Proof.
  unfold dict_keys, dict_values.
  induction d as [|[k r] d IH]; simpl; intros H; constructor.
  - apply (H k r). now left.
  - apply IH. intros k' r' H'. apply H. now right.
Qed.

Lemma see_strings (l acc : list string) :
  fold_left see (map JStr l) (map JStr acc) =
  map JStr (fold_left
              (fun acc x => if in_dec string_dec x acc then acc else acc ++ [x])
              l acc).
Proof.
  revert acc. induction l as [|x l IH]; simpl; intros acc; auto.
  assert (E : existsb (fun k => py_eq k (JStr x)) (map JStr acc) =
              if in_dec string_dec x acc then true else false).
  { destruct (in_dec string_dec x acc) as [Hin|Hno].
    - apply existsb_exists. exists (JStr x). split; [now apply in_map|].
      simpl. apply String.eqb_refl.
    - destruct (existsb _ _) eqn:E; auto.
      apply existsb_exists in E. destruct E as (k & Hk & Heq).
      apply in_map_iff in Hk. destruct Hk as (y & <- & Hy).
      simpl in Heq. apply String.eqb_eq in Heq. now subst y. }
  unfold see at 2. rewrite E.
  destruct (in_dec string_dec x acc); auto.
  rewrite <- IH. now rewrite map_app.
Qed.

Lemma names_of_strings (es : list json) :
  forallb str_name es = true ->
  map entry_name es = map JStr (map name es).
Proof.
  induction es as [|e es IH]; simpl; intros H; auto.
  apply andb_prop in H. destruct H as [He Hes].
  rewrite IH by auto. f_equal.
  apply entry_name_field. now apply str_name_field.
Qed.

Lemma string_names (l : list string) (rs : list json) :
  Forall2 (fun n r => py_eq n (entry_name r) = true) (map JStr l) rs ->
  map name rs = l.
Proof.
  revert rs. induction l as [|x l IH]; intros rs H; inversion H; subst; auto.
  simpl. f_equal; auto.
  unfold entry_name, name in *.
  destruct (field "name" y) as [[| | |s| |]|]; simpl in *; try discriminate.
  symmetry. now apply String.eqb_eq.
Qed.

(** C3. Whatever the files hold, a list that [merge_projects] returns
    is ordered by the first occurrence of each name over the input
    files: its records carry, one for one and in this order, the names
    of the entries in the order in which each name is first met (names
    being the same when [==] says so), wherever the record finally kept
    for a name came from.  When the names are strings, these are the
    same names, each before every name that first occurs later.  No
    sorting by name or by stars takes place. *)
Theorem merge_order_first_seen (fs : filesystem) (input_files : list string)
    (merged_list : list json) :
  merge_projects fs input_files = Returned merged_list ->
  let seen := entries fs input_files in
  Forall2 (fun n r => py_eq n (entry_name r) = true)
    (first_occurrences (map entry_name seen)) merged_list /\
  (forallb str_name seen = true ->
   let names := map name seen in
   map name merged_list = first_seen names /\
   (forall n, In n (map name merged_list) <-> In n names) /\
   StronglySorted (fun a b => (index_of a names < index_of b names)%nat)
     (map name merged_list)).
Proof.
  unfold merge_projects, merge_run, fmap. intros H.
  apply bind_returned in H. destruct H as ([l o] & H & H').
  injection H' as <-.
  apply bind_returned in H. destruct H as ([d o'] & H & H').
  injection H' as <- <-.
  destruct (process_files_names _ _ _ _ _ H) as (Hnamed & Hkeys & _).
  assert (Hnd : named d) by (apply Hnamed; intros k r []).
  assert (Hall : Forall2 (fun n r => py_eq n (entry_name r) = true)
                   (first_occurrences (map entry_name (entries fs input_files)))
                   (dict_values d)).
  { unfold first_occurrences. simpl in Hkeys. rewrite <- Hkeys.
    now apply named_values. }
  cbv zeta. split; [exact Hall|].
  intros Hstr.
  assert (Hnames : map name (dict_values d) =
                   first_seen (map name (entries fs input_files))).
  { apply string_names.
    rewrite (names_of_strings _ Hstr) in Hall.
    unfold first_occurrences in Hall.
    change (@nil json) with (map JStr []) in Hall.
    now rewrite see_strings in Hall. }
  rewrite Hnames. split; [reflexivity|]. split.
  - intros n. apply first_seen_in.
  - apply first_seen_sorted.
Qed.

(** *** Rejected files *)






(** *** Sample runs *)

Import Examples.

(** The example of the specification: the files with 5 and with 9 stars
    for ["a"] merge to the record with 9, in either order. *)
Example merge_five_nine :
  merge_projects sample_files ["five.json"; "nine.json"] =
    Returned [project "a" (JInt 9)] /\
  merge_projects sample_files ["nine.json"; "five.json"] =
    Returned [project "a" (JInt 9)].
Proof. split; reflexivity. Qed.

(** ["b"] is met first and stays first when its record is replaced;
    the list is sorted neither by name nor by stars. *)
Example merge_not_sorted :
  merge_run sample_files ["broken.json"; "mixed.json"; "object.json"] =
  Returned ([project "b" (JInt 7); project "a" (JInt 9)],
            [ErrorInvalidJSON "broken.json"; WarningInvalidEntry "mixed.json";
             ErrorNotArray "object.json"]).
Proof. reflexivity. Qed.

(** Three files of the sample file system follow the data model. *)
Lemma merge_keeps_highest_witness :
  loads sample_files ["five.json"; "mixed.json"; "nine.json"] = true /\
  conforming sample_files ["five.json"; "mixed.json"; "nine.json"] = true /\
  exists merged_list,
    merge_projects sample_files ["five.json"; "mixed.json"; "nine.json"] =
      Returned merged_list /\
    NoDup (map (field "name") merged_list) /\
    (forall r, In r merged_list ->
       first_of_highest
         (entries sample_files ["five.json"; "mixed.json"; "nine.json"]) r).
Proof.
  split; [reflexivity|]. split; [reflexivity|].
  destruct (merge_keeps_highest sample_files
              ["five.json"; "mixed.json"; "nine.json"]) as [H0 H].
  destruct (H eq_refl eq_refl) as (l & H1 & _ & H3 & _).
  exists l. auto.
Defined.

(** A name whose [stars_count] is null in one file and 9 in another:
    both files load and every entry has the two keys, yet in either
    order the comparison of a number with [None] raises, and no list is
    returned. *)
Lemma merge_null_stars_raises :
  loads sample_files ["null.json"; "nine.json"] = true /\
  forallb valid_entry (entries sample_files ["null.json"; "nine.json"]) = true /\
  merge_projects sample_files ["null.json"; "nine.json"] = Raised TypeError /\
  merge_projects sample_files ["nine.json"; "null.json"] = Raised TypeError.
Proof. repeat split. Qed.

(** A record whose [stars_count] is null is stored when first met, and
    compared with itself when met again: [None > None] raises. *)
Lemma merge_twice_differs :
  merge_projects sample_files ["null.json"] =
    Returned [project "a" JNull] /\
  merge_projects sample_files ["null.json"; "null.json"] = Raised TypeError.
Proof. split; reflexivity. Qed.

(** A file with integer star counts, merged with itself. *)
Lemma merge_twice_same_witness :
  forallb int_stars (file_entries sample_files "mixed.json") = true /\
  merge_projects sample_files ["mixed.json"; "mixed.json"] =
  merge_projects sample_files ["mixed.json"].
Proof.
  split; [reflexivity|].
  apply (merge_twice_same sample_files "mixed.json"). reflexivity.
Defined.

(** Names met in the order [b], [a]. *)
Lemma merge_order_first_seen_witness :
  merge_projects sample_files ["mixed.json"; "five.json"] =
    Returned [project "b" (JInt 7); project "a" (JInt 9)] /\
  Forall2 (fun n r => py_eq n (entry_name r) = true)
    (first_occurrences
       (map entry_name (entries sample_files ["mixed.json"; "five.json"])))
    [project "b" (JInt 7); project "a" (JInt 9)] /\
  first_occurrences
    (map entry_name (entries sample_files ["mixed.json"; "five.json"])) =
    [JStr "b"; JStr "a"].
Proof.
  split; [reflexivity|]. split; [|reflexivity].
  apply (merge_order_first_seen sample_files ["mixed.json"; "five.json"]
           [project "b" (JInt 7); project "a" (JInt 9)] eq_refl).
Defined.

(** Names of other types: [1] and [True] are the same key, [null] is a
    key of its own; the position is that of the first occurrence, the
    record the one with the most stars. *)
Example merge_names_of_any_type :
  merge_projects unusual_files ["names.json"] =
    Returned [JObj [("name", JBool true); ("stars_count", JInt 4)];
              JObj [("name", JNull); ("stars_count", JInt 2)]].
Proof. reflexivity. Qed.


End MergerFacts.

(** ** The updater *)

Module UpdaterFacts.
Import Updater.

(** *** The loop, one iteration at a time *)

Lemma update_loop_exhausted (p : string) (max_retries : Z)
    (script : list attempt) (c b : Z) (repo : repo_data) :
  max_retries <= c ->
  update_loop p max_retries script c b repo =
  {| out := Done (Returned false); data := repo;
     trace := [LogFailed p max_retries]; unused := script |}.
Proof.
  intros H. destruct script; simpl;
    destruct (Z.ltb_spec c max_retries); auto; lia.
Qed.

Lemma update_loop_cons (p : string) (max_retries : Z) (a : attempt)
    (script : list attempt) (c b : Z) (repo : repo_data) :
  c < max_retries ->
  update_loop p max_retries (a :: script) c b repo =
  let '(ctl, repo', evs) := loop_body p max_retries a c b repo in
  match ctl with
  | Continue c' b' => emit evs (update_loop p max_retries script c' b' repo')
  | Return r =>
      {| out := Done (Returned r); data := repo'; trace := evs;
         unused := script |}
  | Raise e =>
      {| out := Done (Raised e); data := repo'; trace := evs;
         unused := script |}
  end.
Proof.
  intros H. simpl. destruct (Z.ltb_spec c max_retries); [reflexivity | lia].
Qed.

(** *** What a trace holds *)

Lemma backoff_sleeps_app (t u : list event) :
  backoff_sleeps (t ++ u) = backoff_sleeps t ++ backoff_sleeps u.
Proof.
  induction t as [|[] t IH]; simpl; auto. now rewrite IH.
Qed.

Lemma retry_counts_app (t u : list event) :
  retry_counts (t ++ u) = retry_counts t ++ retry_counts u.
Proof.
  induction t as [|[] t IH]; simpl; auto. now rewrite IH.
Qed.

Lemma retry_errors_app (t u : list event) :
  retry_errors (t ++ u) = (retry_errors t + retry_errors u)%nat.
Proof.
  induction t as [|[] t IH]; simpl; auto.
  destruct (status =? 404); simpl; auto.
Qed.

Lemma fetches_app (t u : list event) :
  fetches (t ++ u) = (fetches t + fetches u)%nat.
Proof.
  unfold fetches. now rewrite filter_app, length_app.
Qed.

(** An iteration either leaves the counter and the timer alone and
    sleeps no backoff, or reports one error, counts it and sleeps the
    doubled timer. *)
Lemma loop_body_backoff (p : string) (max_retries : Z) (a : attempt)
    (c b : Z) (repo : repo_data) :
  let '(ctl, _, evs) := loop_body p max_retries a c b repo in
  (backoff_sleeps evs = [] /\ retry_counts evs = [] /\
   retry_errors evs = O /\
   match ctl with Continue c' b' => c' = c /\ b' = b | _ => True end) \/
  (backoff_sleeps evs = [b * 2] /\ retry_counts evs = [c + 1] /\
   retry_errors evs = 1%nat /\ ctl = Continue (c + 1) (b * 2)).
Proof.
  paths a; try destruct (Z.eqb_spec status 404); try lia; auto 10.
Qed.

Lemma doubling (b : Z) (m : nat) :
  map (fun k => b * 2 * 2 ^ Z.of_nat k) (seq 1 m) =
  map (fun k => b * 2 ^ Z.of_nat k) (seq 2 m).
Proof.
  rewrite <- (seq_shift m 1), map_map. apply map_ext. intros k.
  rewrite Nat2Z.inj_succ, Z.pow_succ_r; lia.
Qed.

Lemma counting (c : Z) (m : nat) :
  map (fun k => c + 1 + Z.of_nat k) (seq 1 m) =
  map (fun k => c + Z.of_nat k) (seq 2 m).
Proof.
  rewrite <- (seq_shift m 1), map_map. apply map_ext. intros k. lia.
Qed.

(** From any state of the loop: the [m] errors of the backoff branches
    are followed by sleeps of [2 b], [4 b], ... and counted [c + 1],
    [c + 2], ..., never beyond [max_retries]. *)
Lemma update_loop_backoff (p : string) (max_retries : Z) (script : list attempt) :
  forall (c b : Z) (repo : repo_data),
  let tr := trace (update_loop p max_retries script c b repo) in
  let m := retry_errors tr in
  backoff_sleeps tr = map (fun k => b * 2 ^ Z.of_nat k) (seq 1 m) /\
  retry_counts tr = map (fun k => c + Z.of_nat k) (seq 1 m) /\
  c + Z.of_nat m <= Z.max c max_retries.
Proof.
  induction script as [|a script IH]; intros c b repo;
    destruct (Z.le_gt_cases max_retries c) as [Hc|Hc].
  - rewrite update_loop_exhausted by auto. simpl. repeat split; auto; lia.
  - simpl. destruct (Z.ltb_spec c max_retries); simpl; repeat split; auto; lia.
  - rewrite update_loop_exhausted by auto. simpl. repeat split; auto; lia.
  - rewrite update_loop_cons by auto.
    pose proof (loop_body_backoff p max_retries a c b repo) as Hb.
    destruct (loop_body p max_retries a c b repo) as [[ctl repo'] evs].
    destruct Hb as [(S0 & R0 & E0 & Hctl)|(S1 & R1 & E1 & ->)].
    + destruct ctl as [c' b'| |]; simpl;
        rewrite ?backoff_sleeps_app, ?retry_counts_app, ?retry_errors_app,
                S0, R0, E0; simpl; try (repeat split; auto; lia).
      destruct Hctl as [-> ->]. apply IH.
    + simpl.
      rewrite backoff_sleeps_app, retry_counts_app, retry_errors_app,
              S1, R1, E1.
      destruct (IH (c + 1) (b * 2) repo') as (A & B & C).
      cbv zeta in *. rewrite A, B. simpl app. simpl Nat.add.
      cbn [seq map]. rewrite doubling, counting.
      split; [|split].
      * f_equal; try (change (Z.of_nat 1) with 1; lia).
      * f_equal; try lia.
      * lia.
Qed.

Lemma emit_app (t u : list event) (r : run) :
  emit (t ++ u) r = emit t (emit u r).
Proof. unfold emit. simpl. now rewrite app_assoc. Qed.

Lemma emit_nil (r : run) : emit [] r = r.
Proof. now destruct r. Qed.

(** *** One iteration, by what its [try] block raises *)

Lemma loop_body_paths (p : string) (max_retries : Z) (a : attempt)
    (c b : Z) (repo : repo_data) :
  loop_body p max_retries a c b repo =
  let repo' := stored_by [a] repo in
  match raised_in_try a with
  | None => (Return true, repo', [Fetch p])
  | Some RateLimitExceededException =>
      match rate_limit_reset a with
      | Returned reset_timestamp =>
          let w := wait_time reset_timestamp (now a) in
          (Continue c b, repo',
           [Fetch p; LogRateLimitExceeded w; SleepUntilReset w])
      | Raised e => (Raise e, repo', [Fetch p])
      end
  | Some (GithubException status data) =>
      if is_object data then
        if status =? 404 then
          (Return false, repo', [Fetch p; LogApiError status; LogNotFound p])
        else
          (Continue (c + 1) (b * 2), repo',
           [Fetch p; LogApiError status;
            LogRetrying (b * 2) (c + 1) max_retries; SleepBackoff (b * 2)])
      else (Raise AttributeError, repo', [Fetch p])
  | Some e =>
      (Continue (c + 1) (b * 2), repo',
       [Fetch p; LogUnexpected e;
        LogRetrying (b * 2) (c + 1) max_retries; SleepBackoff (b * 2)])
  end.
Proof.
  unfold loop_body, raised_in_try. simpl stored_by.
  destruct (get_repo a) as [[s f]|e].
  - destruct (get_rate_limit a) as [u|e]; [reflexivity|].
    destruct e as [| | | | | |status data|]; try reflexivity.
    + destruct (rate_limit_reset a); reflexivity.
    + destruct data; simpl; try reflexivity.
      destruct (status =? 404); reflexivity.
  - destruct e as [| | | | | |status data|]; try reflexivity.
    + destruct (rate_limit_reset a); reflexivity.
    + destruct data; simpl; try reflexivity.
      destruct (status =? 404); reflexivity.
Qed.


Lemma calm_raised (a : attempt) :
  calm a = match raised_in_try a with
           | Some e => negb (is_rate_limit e)
           | None => true
           end.
Proof.
  unfold calm, raised_in_try.
  destruct (get_repo a); [destruct (get_rate_limit a)|]; reflexivity.
Qed.

(** The fields after an iteration are those its fetch stored, however
    the iteration ends. *)
Lemma loop_body_data (p : string) (max_retries : Z) (a : attempt)
    (c b : Z) (repo : repo_data) :
  snd (fst (loop_body p max_retries a c b repo)) = stored_by [a] repo.
Proof.
  rewrite loop_body_paths. cbv zeta.
  destruct (raised_in_try a) as [[| | | | | |status data|]|]; try reflexivity.
  - destruct (rate_limit_reset a); reflexivity.
  - destruct (is_object data); [destruct (status =? 404)|]; reflexivity.
Qed.

Lemma stored_by_none (s : list attempt) (repo : repo_data) :
  existsb fetch_returns s = false -> stored_by s repo = repo.
Proof.
  induction s as [|a s IH]; simpl; auto.
  unfold fetch_returns at 1.
  destruct (get_repo a); simpl; [discriminate|auto].
Qed.

(** However a run ends, the fields are those stored by the fetches of
    the iterations it went through. *)
Lemma update_loop_data (p : string) (max_retries : Z) (script : list attempt) :
  forall (c b : Z) (repo : repo_data),
  let r := update_loop p max_retries script c b repo in
  exists used, script = used ++ unused r /\ data r = stored_by used repo.
Proof.
  induction script as [|a script IH]; intros c b repo;
    destruct (Z.le_gt_cases max_retries c) as [Hc|Hc]; cbv zeta.
  - rewrite update_loop_exhausted by auto. now exists [].
  - simpl. destruct (Z.ltb_spec c max_retries); [|lia]. now exists [].
  - rewrite update_loop_exhausted by auto. now exists [].
  - rewrite update_loop_cons by lia.
    pose proof (loop_body_data p max_retries a c b repo) as Hd.
    destruct (loop_body p max_retries a c b repo) as [[ctl repo'] evs].
    simpl in Hd. subst repo'.
    destruct ctl as [c' b'|ok|e].
    + destruct (IH c' b' (stored_by [a] repo)) as (used & Hu & Hdata).
      cbv zeta in *. exists (a :: used). unfold emit. cbn [unused data].
      split; [simpl; now f_equal | exact Hdata].
    + exists [a]. split; reflexivity.
    + exists [a]. split; reflexivity.
Qed.


(** *** Backoff *)


(** *** Not found *)


(** *** Rate limit *)

Lemma wait_time_floor (reset_timestamp current : Q) :
  (1 <= wait_time reset_timestamp current)%Q.
Proof.
  unfold wait_time.
  setoid_replace 1%Q with (0 + 1)%Q at 1 by ring.
  apply Qplus_le_compat; [apply Q.le_max_r | apply Qle_refl].
Qed.

Lemma wait_time_future (reset_timestamp current : Q) :
  (current <= reset_timestamp)%Q ->
  (wait_time reset_timestamp current == reset_timestamp - current + 1)%Q.
Proof.
  intros H. unfold wait_time. rewrite Q.max_l; [reflexivity|].
  setoid_replace 0%Q with (current - current)%Q by ring.
  apply Qplus_le_compat; [exact H | apply Qle_refl].
Qed.

Lemma loop_body_rate_limited (p : string) (max_retries : Z) (a : attempt)
    (c b : Z) (repo : repo_data) :
  rate_limited a = true ->
  loop_body p max_retries a c b repo =
  (Continue c b, stored_by [a] repo,
   [Fetch p; LogRateLimitExceeded (wait_of a); SleepUntilReset (wait_of a)]).
Proof.
  unfold rate_limited, wait_of. rewrite calm_raised, loop_body_paths.
  destruct (raised_in_try a) as [[| | | | | |status data|]|];
    try discriminate.
  destruct (rate_limit_reset a); [reflexivity|discriminate].
Qed.

(** C7, as amended. On rate-limit-exceeded answers, to the fetch or to
    the rate-limit query that follows a fetch, however many: when the
    handler obtains the reset time, the loop sleeps for
    [max(reset - now, 0) + 1] seconds (at least 1 second, and
    [reset - now + 1] when the reset time is not in the past) and goes
    on with the same attempt counter and the same backoff timer, so
    these answers alone never use up the retry budget; when the query of
    the reset time raises, that exception leaves [update_repo_stats]
    right after the fetch, with no sleep and no retry. *)
Theorem rate_limit_waits (repo_path : string) (max_retries : Z)
    (waits rest : list attempt) (retry_count backoff_time : Z)
    (repo : repo_data) :
  retry_count < max_retries ->
  forallb rate_limited waits = true ->
  update_loop repo_path max_retries (waits ++ rest) retry_count backoff_time repo =
  emit (flat_map (fun a => [Fetch repo_path;
                            LogRateLimitExceeded (wait_of a);
                            SleepUntilReset (wait_of a)]) waits)
    (update_loop repo_path max_retries rest retry_count backoff_time
       (stored_by waits repo)) /\
  (forall a reset_timestamp,
     In a waits -> rate_limit_reset a = Returned reset_timestamp ->
     wait_of a = (Qmax (reset_timestamp - now a) 0 + 1)%Q /\
     (1 <= wait_of a)%Q /\
     ((now a <= reset_timestamp)%Q ->
      (wait_of a == reset_timestamp - now a + 1)%Q)) /\
  (forall a e,
     calm a = false -> rate_limit_reset a = Raised e ->
     update_loop repo_path max_retries (a :: rest) retry_count backoff_time repo =
     {| out := Done (Raised e); data := stored_by [a] repo;
        trace := [Fetch repo_path]; unused := rest |}).
Proof.
  intros Hc Hw. split; [|split].
  - revert repo. induction waits as [|a waits IH]; intros repo.
    + simpl. now rewrite emit_nil.
    + simpl in Hw. apply andb_prop in Hw. destruct Hw as [Ha Hw].
      rewrite <- app_comm_cons, update_loop_cons by auto.
      rewrite (loop_body_rate_limited _ _ _ _ _ _ Ha).
      rewrite IH by auto. cbn [flat_map].
      now rewrite emit_app.
  - intros a reset _ Hr. unfold wait_of. rewrite Hr.
    split; [reflexivity|]. split.
    + apply wait_time_floor.
    + apply wait_time_future.
  - intros a e Ha Hr. rewrite update_loop_cons by auto.
    rewrite loop_body_paths. rewrite calm_raised in Ha.
    destruct (raised_in_try a) as [[| | | | | |status data|]|];
      try discriminate.
    now rewrite Hr.
Qed.

(** *** Exhausted retries *)

(** When as many errors have been counted as the budget allows, the
    loop test fails: the run logs the failure last and returns
    [False]. *)
Lemma update_loop_used_up (p : string) (max_retries : Z) (script : list attempt) :
  forall (c b : Z) (repo : repo_data),
  let r := update_loop p max_retries script c b repo in
  retry_errors (trace r) = Z.to_nat (max_retries - c) ->
  out r = Done (Returned false) /\
  exists tr, trace r = tr ++ [LogFailed p max_retries].
Proof.
  induction script as [|a script IH]; intros c b repo;
    destruct (Z.le_gt_cases max_retries c) as [Hc|Hc]; cbv zeta;
    try (rewrite update_loop_exhausted by auto; intros _;
         split; [reflexivity | now exists []]).
  - simpl. destruct (Z.ltb_spec c max_retries); [|lia]. simpl. lia.
  - rewrite update_loop_cons by lia.
    pose proof (loop_body_backoff p max_retries a c b repo) as Hb.
    destruct (loop_body p max_retries a c b repo) as [[ctl repo'] evs].
    destruct Hb as [(_ & _ & E0 & Hctl)|(_ & _ & E1 & ->)].
    + destruct ctl as [c' b'|ok|e]; cbn [trace]; try (rewrite E0; lia).
      destruct Hctl as [-> ->]. unfold emit. cbn [out trace].
      rewrite retry_errors_app, E0. simpl. intros Hn.
      destruct (IH c b repo' Hn) as (Ho & tr & Ht).
      split; [exact Ho|]. exists (evs ++ tr). now rewrite Ht, app_assoc.
    + unfold emit. cbn [out trace]. rewrite retry_errors_app, E1. intros Hn.
      destruct (IH (c + 1) (b * 2) repo') as (Ho & tr & Ht); [lia|].
      split; [exact Ho|]. exists (evs ++ tr). now rewrite Ht, app_assoc.
Qed.

(** C6, as amended. When the retries are used up (as many failed
    attempts have been counted as [max_retries] allows),
    [update_repo_stats] logs the failure last and returns [False].  The
    repository's fields are then those stored by the fetches that
    returned during the call (an attempt also counts as failed when the
    rate-limit query after its fetch raises, and by then the counts are
    stored); they are what they were on entry when no fetch of the call
    returned. *)
Theorem exhausted_keeps_fields (repo_path : string) (max_retries : Z)
    (script : list attempt) (repo : repo_data) :
  let r := update_repo_stats script repo_path repo max_retries in
  retry_errors (trace r) = Z.to_nat max_retries ->
  out r = Done (Returned false) /\
  (exists tr, trace r = tr ++ [LogFailed repo_path max_retries]) /\
  exists used,
    script = used ++ unused r /\
    data r = stored_by used repo /\
    (existsb fetch_returns used = false -> data r = repo).
Proof.
  cbv zeta. unfold update_repo_stats. intros Hn.
  destruct (update_loop_used_up repo_path max_retries script 0 1 repo)
    as (Ho & Ht); [now rewrite Z.sub_0_r|].
  split; [exact Ho|]. split; [exact Ht|].
  destruct (update_loop_data repo_path max_retries script 0 1 repo)
    as (used & Hu & Hd).
  exists used. repeat split; auto.
  intros Hnone. rewrite Hd. now apply stored_by_none.
Qed.

(** *** Bounded attempts *)





(** *** The main loop *)




(** *** Sample runs *)

Import Examples MoreExamples.



(** A not-found error whose [data] is [None]: the log line of the
    handler raises before the status is looked at. *)
Example not_found_without_data_raises :
  let a := answer (Raised (GithubException 404 JNull)) (Returned tt)
             (Returned 0%Q) 0%Q in
  let r := update_repo_stats [a; fetched] "o/r" stored default_max_retries in
  out r = Done (Raised AttributeError) /\ trace r = [Fetch "o/r"].
Proof. repeat split. Qed.

(** Five iterations whose fetch returns and whose rate-limit query then
    raises: none runs through, the retries are used up, the function
    logs the failure and returns [False], and the counts it stored at
    each fetch stay. *)
Lemma exhausted_after_fetch_changes_fields :
  let script := repeat fetched_then_failed 5 in
  let r := update_repo_stats script "o/r" stored default_max_retries in
  existsb succeeds script = false /\
  out r = Done (Returned false) /\
  last (trace r) (Fetch "") = LogFailed "o/r" 5 /\
  obj_get "stars_count" stored = Some (JInt 1) /\
  obj_get "stars_count" (data r) = Some (JInt 10) /\
  obj_get "forks_count" stored = Some (JInt 0) /\
  obj_get "forks_count" (data r) = Some (JInt 3).
Proof. repeat split. Qed.

(** A fetch that returns and is then answered rate-limit-exceeded,
    followed by five fetches that fail: the retries are used up by
    failing fetches, and the counts of the first fetch stay. *)
Example exhausted_after_limited_fetch :
  let script := fetched_then_limited :: repeat server_error 5 in
  let r := update_repo_stats script "o/r" stored default_max_retries in
  out r = Done (Returned false) /\
  retry_errors (trace r) = 5%nat /\
  obj_get "stars_count" (data r) = Some (JInt 10) /\
  obj_get "forks_count" (data r) = Some (JInt 3).
Proof. repeat split. Qed.

(** Two failing fetches with a rate-limit wait between them use up a
    budget of two retries; no fetch returned. *)
Lemma exhausted_keeps_fields_witness :
  let script := [server_error; rate_limit_ahead; server_error; fetched] in
  let r := update_repo_stats script "o/r" stored 2 in
  retry_errors (trace r) = Z.to_nat 2 /\
  out r = Done (Returned false) /\
  unused r = [fetched] /\
  data r = stored.
Proof.
  cbv zeta. split; [reflexivity|].
  destruct (exhausted_keeps_fields "o/r" 2
              [server_error; rate_limit_ahead; server_error; fetched]
              stored eq_refl) as (A & _ & used & Hu & _ & Hd).
  split; [exact A|]. split; [reflexivity|].
  apply Hd.
  assert (E : used = [server_error; rate_limit_ahead; server_error]).
  { apply (app_inv_tail [fetched]). exact (eq_sym Hu). }
  rewrite E. reflexivity.
Defined.

(** The reset time (100) is 5 seconds in the past of the clock (105):
    the handler sleeps 1 second, not 100 - 105 + 1. *)
Lemma rate_limit_wait_past_reset :
  let r := update_repo_stats [rate_limit_past; fetched] "o/r" stored
             default_max_retries in
  rate_limit_reset rate_limit_past = Returned 100%Q /\
  now rate_limit_past = 105%Q /\
  trace r = [Fetch "o/r"; LogRateLimitExceeded 1%Q; SleepUntilReset 1%Q;
             Fetch "o/r"] /\
  ~ (1 == 100 - 105 + 1)%Q.
Proof. repeat split. intros H. discriminate H. Qed.

(** Seven rate-limit answers, more than the default budget of five
    retries, the last to the rate-limit query after a fetch that
    returned, and then a fetch that succeeds. *)
Lemma rate_limit_waits_witness :
  let waits := repeat rate_limit_ahead 6 ++ [fetched_then_limited] in
  0 < default_max_retries /\
  forallb rate_limited waits = true /\
  out (update_loop "o/r" default_max_retries (waits ++ [fetched]) 0 1 stored) =
  Done (Returned true) /\
  update_loop "o/r" default_max_retries [rate_limit_blind; fetched] 0 1 stored =
  {| out := Done (Raised OtherException); data := stored;
     trace := [Fetch "o/r"]; unused := [fetched] |}.
Proof.
  cbv zeta. split; [reflexivity|]. split; [reflexivity|].
  destruct (rate_limit_waits "o/r" default_max_retries
              (repeat rate_limit_ahead 6 ++ [fetched_then_limited])
              [fetched] 0 1 stored eq_refl eq_refl) as (H & _ & H').
  split; [rewrite H; reflexivity|].
  apply (H' rate_limit_blind OtherException); reflexivity.
Defined.






(** What a sample run writes: the entries whose path cannot be found
    are written back as they were, the third with the fetched counts. *)
Example main_sample_run :
  let w := sample_world (JArr [no_links_repo; bad_prefix_repo; good_repo])
             (repeat fetched 15) in
  written (main w sample_args) =
    Some ("repos.json",
          JArr [no_links_repo; bad_prefix_repo;
                JObj [("name", JStr "good");
                      ("links", JArr [link "https://example.org/";
                                      link "https://github.com/o/r"]);
                      ("stars_count", JInt 10); ("forks_count", JInt 3)]]) /\
  In (LogErrorProcessing (Name (JStr "bare")) KeyError) (log (main w sample_args)) /\
  In (LogErrorProcessing (Name (JStr "mirror")) ValueError) (log (main w sample_args)).
Proof. cbv zeta. split; [reflexivity|]. split; vm_compute; tauto. Qed.

End UpdaterFacts.


(** ** More on the merger *)

Module MergerMore.
Import Merger MergerFacts Coverage.

(** *** The records returned are records read *)

Lemma process_project_values (p : string) (e : json) (d d' : merged)
    (out : list message) :
  process_project p e d = Returned (d', out) ->
  forall x, In x (dict_values d') ->
            In x (dict_values d) \/ (x = e /\ valid_entry e = true).
Proof.
  unfold process_project, py_contains, valid_entry.
  destruct (field "name" e) as [n|];
    [|intros H; injection H as <- <-; auto].
  destruct (field "stars_count" e) as [s|];
    [|intros H; injection H as <- <-; auto].
  assert (Hset : forall x, In x (dict_values (dict_set py_eq n e d)) ->
                 In x (dict_values d) \/ (x = e /\ true = true)).
  { intros x Hx. apply dict_set_values in Hx. tauto. }
  destruct (hashable n); simpl; [|discriminate].
  destruct (dict_mem py_eq n d).
  - destruct (dict_get py_eq n d) as [r|]; [|discriminate].
    destruct (field "stars_count" r) as [sr|]; [|discriminate].
    destruct (py_gt s sr) as [[|]|]; simpl; try discriminate;
      intros H; injection H as <- <-; auto.
  - intros H; injection H as <- <-; auto.
Qed.

Lemma process_projects_values (p : string) (es : list json) :
  forall (d d' : merged) (out : list message),
  process_projects p es d = Returned (d', out) ->
  forall x, In x (dict_values d') ->
            In x (dict_values d) \/ In x (filter valid_entry es).
Proof.
  induction es as [|e es IH]; simpl; intros d d' out H x Hx.
  - injection H as <- <-. auto.
  - apply bind_returned in H. destruct H as ([m1 o1] & H1 & H).
    apply bind_returned in H. destruct H as ([m2 o2] & H2 & H).
    injection H as <- <-.
    destruct (IH _ _ _ H2 x Hx) as [Hx1|Hx1].
    + destruct (process_project_values _ _ _ _ _ H1 x Hx1) as [?|[-> Hv]]; auto.
      right. rewrite Hv. now left.
    + right. destruct (valid_entry e); simpl; auto.
Qed.

Lemma process_files_values (fs : filesystem) (input_files : list string) :
  forall (d d' : merged) (out : list message),
  process_files fs input_files d = Returned (d', out) ->
  forall x, In x (dict_values d') ->
            In x (dict_values d) \/ In x (entries fs input_files).
Proof.
  unfold entries.
  induction input_files as [|p rest IH]; simpl; intros d d' out H x Hx.
  - injection H as <- <-. auto.
  - apply bind_returned in H. destruct H as ([m1 o1] & H1 & H).
    apply bind_returned in H. destruct H as ([m2 o2] & H2 & H).
    injection H as <- <-. rewrite in_app_iff.
    destruct (IH _ _ _ H2 x Hx) as [Hx1|Hx1]; auto.
    unfold process_file, file_entries in *.
    destruct (fs p) as [| |e|[| | | |es|]];
      try discriminate;
      try (injection H1 as <- <-; auto; fail).
    destruct (process_projects_values _ _ _ _ _ H1 x Hx1); auto.
Qed.

Lemma merge_records_read (fs : filesystem) (input_files : list string)
    (merged_list : list json) :
  merge_projects fs input_files = Returned merged_list ->
  forall r, In r merged_list -> In r (entries fs input_files).
Proof.
  unfold merge_projects, merge_run, fmap. intros H r Hr.
  apply bind_returned in H. destruct H as ([l o] & H & H').
  injection H' as <-.
  apply bind_returned in H. destruct H as ([d o'] & H & H').
  injection H' as <- <-.
  destruct (process_files_values _ _ _ _ _ H r Hr) as [[]|]; auto.
Qed.

(** X1. Whatever the files hold, every record of a list that
    [merge_projects] returns is an entry of one of the input files, as it
    was read, and an entry that has a [name] and a [stars_count]: the
    merge makes up no record and alters none. *)
Theorem merge_returns_input_records (fs : filesystem)
    (input_files : list string) (merged_list : list json) (r : json) :
  merge_projects fs input_files = Returned merged_list ->
  In r merged_list ->
  valid_entry r = true /\
  exists file_path projects,
    In file_path input_files /\
    fs file_path = Loaded (JArr projects) /\ In r projects.
Proof.
  intros H Hr. pose proof (merge_records_read _ _ _ H r Hr) as Hin.
  unfold entries in Hin. apply in_flat_map in Hin.
  destruct Hin as (p & Hp & Hin). unfold file_entries in Hin.
  destruct (fs p) as [| |e|[| | | |es|]] eqn:Hfs; try contradiction.
  apply filter_In in Hin. destruct Hin as [Hin Hv].
  split; auto. exists p, es. auto.
Qed.

(** *** Only the valid entries count, in reading order *)

Lemma process_project_path (p q : string) (e : json) (d : merged) :
  fmap fst (process_project p e d) = fmap fst (process_project q e d).
Proof.
  unfold process_project.
  destruct (field "name" e); [|reflexivity].
  destruct (field "stars_count" e); reflexivity.
Qed.

Lemma process_projects_filter (p q : string) (es : list json) :
  forall d,
  fmap fst (process_projects p es d) =
  fmap fst (process_projects q (filter valid_entry es) d).
Proof.
  induction es as [|e es IH]; intros d; simpl; auto.
  destruct (valid_entry e) eqn:Hv; simpl.
  - pose proof (process_project_path p q e d) as Hpq.
    destruct (process_project p e d) as [[m1 o1]|],
             (process_project q e d) as [[m1' o1']|];
      simpl in *; try congruence.
    injection Hpq as <-. specialize (IH m1).
    destruct (process_projects p es m1) as [[m2 o2]|],
             (process_projects q _ m1) as [[m2' o2']|];
      simpl in *; congruence.
  - rewrite (process_project_invalid _ _ _ Hv). simpl.
    specialize (IH d).
    destruct (process_projects p es d) as [[m2 o2]|],
             (process_projects q _ d) as [[m2' o2']|];
      simpl in *; congruence.
Qed.

Lemma process_projects_app (p : string) (es1 es2 : list json) :
  forall d,
  fmap fst (process_projects p (es1 ++ es2) d) =
  bind (fmap fst (process_projects p es1 d))
       (fun d1 => fmap fst (process_projects p es2 d1)).
Proof.
  induction es1 as [|e es1 IH]; intros d; simpl.
  - destruct (process_projects p es2 d) as [[m o]|]; reflexivity.
  - destruct (process_project p e d) as [[m1 o1]|]; simpl; auto.
    specialize (IH m1).
    destruct (process_projects p (es1 ++ es2) m1) as [[m o]|],
             (process_projects p es1 m1) as [[m' o']|];
      simpl in *; auto; try congruence;
      destruct (process_projects p es2 m') as [[m'' o'']|]; simpl in *; congruence.
Qed.

(** When every file loads, the loop over the files is the loop over
    their valid entries. *)
Lemma process_files_entries (fs : filesystem) (input_files : list string) :
  loads fs input_files = true ->
  forall d,
  fmap fst (process_files fs input_files d) =
  fmap fst (process_projects "" (entries fs input_files) d).
Proof.
  unfold entries, loads.
  induction input_files as [|p rest IH]; intros Hl d; simpl; auto.
  simpl in Hl. apply andb_prop in Hl. destruct Hl as [Hp Hrest].
  rewrite process_projects_app.
  assert (H1 : fmap fst (process_file fs p d) =
               fmap fst (process_projects "" (file_entries fs p) d)).
  { unfold process_file, file_entries. unfold aborts in Hp.
    destruct (fs p) as [| |e|[| | | |es|]];
      try reflexivity; try discriminate.
    apply process_projects_filter. }
  rewrite <- H1.
  destruct (process_file fs p d) as [[m1 o1]|]; simpl; auto.
  rewrite <- (IH Hrest).
  destruct (process_files fs rest m1) as [[m o]|]; reflexivity.
Qed.

Lemma merge_projects_entries (fs : filesystem) (input_files : list string) :
  loads fs input_files = true ->
  merge_projects fs input_files =
  fmap (@dict_values json json)
    (fmap fst (process_projects "" (entries fs input_files) [])).
Proof.
  intros Hl.
  rewrite <- (process_files_entries _ _ Hl). unfold merge_projects, merge_run.
  destruct (process_files fs input_files []) as [[m o]|]; reflexivity.
Qed.

(** X2. When no load raises an exception the merger does not catch, the
    result of [merge_projects], a list or an exception, depends only on
    the sequence of the entries that have a [name] and a [stars_count],
    in reading order: not on the paths, not on how the entries are
    spread over the files, not on the files that are skipped with an
    error line and the entries that are skipped. *)
Theorem merge_depends_on_entries (fs fs' : filesystem)
    (input_files input_files' : list string) :
  loads fs input_files = true ->
  loads fs' input_files' = true ->
  entries fs input_files = entries fs' input_files' ->
  merge_projects fs input_files = merge_projects fs' input_files'.
Proof.
  intros Hl Hl' H. now rewrite !merge_projects_entries, H.
Qed.

(** *** What is printed *)

Lemma process_project_prints (p : string) (e : json) (d d' : merged)
    (out : list message) :
  process_project p e d = Returned (d', out) ->
  out = if valid_entry e then [] else [WarningInvalidEntry p].
Proof.
  unfold process_project, py_contains, valid_entry.
  destruct (field "name" e) as [n|];
    [|intros H; now injection H as <- <-].
  destruct (field "stars_count" e) as [s|];
    [|intros H; now injection H as <- <-].
  destruct (hashable n); simpl; [|discriminate].
  destruct (dict_mem py_eq n d).
  - destruct (dict_get py_eq n d) as [r|]; [|discriminate].
    destruct (field "stars_count" r) as [sr|]; [|discriminate].
    destruct (py_gt s sr) as [[|]|]; simpl; try discriminate;
      intros H; now injection H as <- <-.
  - intros H; now injection H as <- <-.
Qed.

Lemma process_projects_prints (p : string) (es : list json) :
  forall (d d' : merged) (out : list message),
  process_projects p es d = Returned (d', out) ->
  out = map (fun _ => WarningInvalidEntry p)
            (filter (fun e => negb (valid_entry e)) es).
Proof.
  induction es as [|e es IH]; simpl; intros d d' out H.
  - now injection H as <- <-.
  - apply bind_returned in H. destruct H as ([m1 o1] & H1 & H).
    apply bind_returned in H. destruct H as ([m2 o2] & H2 & H).
    injection H as <- <-.
    rewrite (process_project_prints _ _ _ _ _ H1), (IH _ _ _ H2).
    destruct (valid_entry e); reflexivity.
Qed.

(** X3. When [merge_projects] returns, what it has printed on standard
    error is, file after file in the order given, one error line for a
    file that cannot be opened, is not JSON or is not an array, and one
    warning for each entry of an array that is not a mapping or lacks
    [name] or [stars_count]; nothing is printed for an entry that is
    merged. *)
Theorem merge_prints_diagnostics (fs : filesystem) (input_files : list string)
    (merged_list : list json) (out : list message) :
  merge_run fs input_files = Returned (merged_list, out) ->
  out = flat_map (diagnostics fs) input_files.
Proof.
  unfold merge_run. intros H.
  apply bind_returned in H. destruct H as ([d o] & H & H').
  injection H' as _ <-. clear merged_list.
  revert d o H. generalize (@nil (json * json)).
  induction input_files as [|p rest IH]; simpl; intros d0 d o H.
  - now injection H as _ <-.
  - apply bind_returned in H. destruct H as ([m1 o1] & H1 & H).
    apply bind_returned in H. destruct H as ([m2 o2] & H2 & H).
    injection H as _ <-. rewrite (IH _ _ _ H2). f_equal.
    unfold process_file, diagnostics in *.
    destruct (fs p) as [| |e|[| | | |es|]];
      try discriminate;
      try (now injection H1 as _ <-).
    eapply process_projects_prints; eauto.
Qed.

(** *** Merging what was merged *)

Lemma keyed_by_name_absent (n : string) (acc : list json) :
  ~ In n (map name acc) ->
  dict_get py_eq (JStr n) (map keyed_by_name acc) = None.
Proof.
  induction acc as [|a acc IH]; [reflexivity|].
  cbn [map]. intros H. unfold keyed_by_name at 1. cbn [dict_get py_eq].
  destruct (String.eqb_spec (name a) n) as [Heq|_].
  - exfalso. apply H. now left.
  - apply IH. intros Hin. apply H. now right.
Qed.

Lemma process_project_new (p : string) (e : json) (acc : list json) :
  typed_entry e -> ~ In (name e) (map name acc) ->
  process_project p e (map keyed_by_name acc) =
  Returned (map keyed_by_name (acc ++ [e]), []).
Proof.
  intros [Hn Hs] Hnew.
  unfold process_project, py_contains, dict_mem.
  rewrite (str_name_field _ Hn), (int_stars_field _ Hs). simpl.
  rewrite (keyed_by_name_absent _ _ Hnew). simpl.
  rewrite dict_set_absent by now apply keyed_by_name_absent.
  now rewrite map_app.
Qed.

(** Records of the data model with distinct names are stored one after
    the other. *)
Lemma process_projects_distinct (p : string) (l : list json) :
  forall acc,
  Forall typed_entry l -> NoDup (map name (acc ++ l)) ->
  process_projects p l (map keyed_by_name acc) =
  Returned (map keyed_by_name (acc ++ l), []).
Proof.
  induction l as [|e l IH]; intros acc Hty Hnd; simpl.
  - now rewrite app_nil_r.
  - inversion Hty as [|? ? He Hl]; subst.
    rewrite map_app in Hnd. simpl in Hnd.
    rewrite process_project_new; auto.
    + simpl. rewrite IH; auto.
      * simpl. now rewrite <- app_assoc.
      * rewrite <- app_assoc, map_app. exact Hnd.
    + apply NoDup_remove_2 in Hnd. intros H. apply Hnd.
      apply in_app_iff. now left.
Qed.

Lemma merged_shape (seen : list json) (d : merged) :
  merged_inv seen d -> Forall typed_entry seen ->
  d = map keyed_by_name (dict_values d).
Proof.
  intros Hinv Hty.
  assert (H : forall k r, In (k, r) d -> k = JStr (name r)).
  { intros k r Hin.
    destruct (inv_typed _ _ Hinv Hty _ _ Hin) as [Hn _].
    apply (inv_values _ _ Hinv) in Hin. destruct Hin as [Hk _].
    rewrite (str_name_field _ Hn) in Hk. congruence. }
  clear Hinv. induction d as [|[k r] d IH]; simpl; auto.
  rewrite (H k r) by now left. unfold keyed_by_name at 1. f_equal.
  apply IH. intros; apply H; now right.
Qed.

Lemma filter_all {A : Type} (f : A -> bool) (l : list A) :
  (forall x, In x l -> f x = true) -> filter f l = l.
Proof.
  induction l as [|x l IH]; simpl; intros H; auto.
  rewrite (H x) by now left. f_equal. apply IH. intros; apply H; now right.
Qed.

Lemma conforming_app (fs : filesystem) (l l' : list string) :
  conforming fs (l ++ l') = true ->
  conforming fs l = true /\ conforming fs l' = true.
Proof.
  unfold conforming, entries. rewrite flat_map_app, forallb_app.
  apply andb_prop.
Qed.

Lemma process_files_app (fs : filesystem) (l1 l2 : list string) :
  forall d,
  fmap fst (process_files fs (l1 ++ l2) d) =
  bind (fmap fst (process_files fs l1 d))
       (fun d1 => fmap fst (process_files fs l2 d1)).
Proof.
  induction l1 as [|p l1 IH]; intros d; simpl.
  - destruct (process_files fs l2 d) as [[m o]|]; reflexivity.
  - destruct (process_file fs p d) as [[m1 o1]|]; simpl; auto.
    specialize (IH m1).
    destruct (process_files fs (l1 ++ l2) m1) as [[m o]|],
             (process_files fs l1 m1) as [[m' o']|];
      simpl in *; auto; try congruence;
      destruct (process_files fs l2 m') as [[m'' o'']|]; simpl in *; congruence.
Qed.

Lemma merge_projects_files (fs : filesystem) (input_files : list string) :
  merge_projects fs input_files =
  fmap (@dict_values json json) (fmap fst (process_files fs input_files [])).
Proof.
  unfold merge_projects, merge_run.
  destruct (process_files fs input_files []) as [[m o]|]; reflexivity.
Qed.

Lemma loads_app (fs : filesystem) (l l' : list string) :
  loads fs (l ++ l') = true -> loads fs l = true /\ loads fs l' = true.
Proof. unfold loads. rewrite forallb_app. apply andb_prop. Qed.

(** X4. Merging step by step is merging at once: when the list merged
    from some files is saved as a file, merging that file with further
    files gives what merging all the files in one run gives, for files
    whose records follow the data model.  In particular a merged list
    merges to itself. *)
Theorem merge_incremental (fs : filesystem) (input_files more : list string)
    (saved : string) (merged_list : list json) :
  conforming fs (input_files ++ more) = true ->
  merge_projects fs input_files = Returned merged_list ->
  fs saved = Loaded (JArr merged_list) ->
  merge_projects fs (saved :: more) = merge_projects fs (input_files ++ more).
Proof.
  intros Hc Hm Hsaved.
  destruct (conforming_app _ _ _ Hc) as [Hc1 _].
  pose proof (merge_loads _ _ _ Hm) as Hl.
  destruct (process_files_inv fs input_files [] [] merged_inv_empty
              (Forall_nil _) Hl Hc1) as (d & out & Hd & Hinv & Hty).
  simpl in Hinv, Hty.
  assert (merged_list = dict_values d) as ->.
  { unfold merge_projects, merge_run in Hm. rewrite Hd in Hm. simpl in Hm.
    congruence. }
  assert (Htyped : Forall typed_entry (dict_values d)).
  { apply Forall_forall. intros r Hr. apply value_in in Hr.
    destruct Hr as [k Hr]. exact (inv_typed _ _ Hinv Hty _ _ Hr). }
  assert (Hnd : NoDup (map name (dict_values d))).
  { rewrite (merged_names _ _ Hinv). apply first_seen_nodup. }
  rewrite !merge_projects_files, process_files_app, Hd.
  cbn [process_files]. unfold process_file at 1. rewrite Hsaved.
  pose proof (process_projects_distinct saved (dict_values d) [] Htyped Hnd)
    as Hid.
  cbn [map app] in Hid. rewrite Hid, <- (merged_shape _ _ Hinv Hty).
  simpl. destruct (process_files fs more d) as [[m o]|]; reflexivity.
Qed.

(** *** More files *)

Lemma first_seen_app (a b : list string) :
  exists tail, first_seen (a ++ b) = first_seen a ++ tail.
Proof.
  induction b as [|x b [t IH]] using rev_ind.
  - exists []. now rewrite !app_nil_r.
  - rewrite app_assoc, first_seen_snoc, IH.
    destruct (in_dec string_dec x (first_seen a ++ t)).
    + now exists t.
    + exists (t ++ [x]). now rewrite app_assoc.
Qed.

Lemma merged_covers (seen : list json) (d : merged) :
  merged_inv seen d -> Forall typed_entry seen ->
  forall e, In e seen ->
  exists r, In r (dict_values d) /\ field "name" r = field "name" e.
Proof.
  intros Hinv Hty e He.
  assert (Hk : In (JStr (name e)) (dict_keys d)).
  { apply (inv_key_name _ _ Hinv). eauto. }
  unfold dict_keys in Hk. apply in_map_iff in Hk.
  destruct Hk as ([k r] & Hk & Hin). simpl in Hk. subst k.
  exists r. split.
  - unfold dict_values. change r with (snd (JStr (name e), r)).
    now apply in_map.
  - rewrite Forall_forall in Hty. destruct (Hty e He) as [Hn _].
    rewrite (str_name_field _ Hn). now apply (inv_values _ _ Hinv).
Qed.

(** X5. Further input files only add: when no load raises an exception
    the merger does not catch and the records follow the data model, the
    names merged from the first files stay at the front of the result,
    in the same order, and the [stars_count] retained for each of them
    does not go down. *)
Theorem merge_more_files (fs : filesystem) (input_files more : list string) :
  loads fs (input_files ++ more) = true ->
  conforming fs (input_files ++ more) = true ->
  exists merged_list merged_list',
    merge_projects fs input_files = Returned merged_list /\
    merge_projects fs (input_files ++ more) = Returned merged_list' /\
    (exists tail, map name merged_list' = map name merged_list ++ tail) /\
    forall r, In r merged_list ->
      exists r', In r' merged_list' /\
                 field "name" r' = field "name" r /\
                 stars r <= stars r'.
Proof.
  intros Hl Hc. destruct (conforming_app _ _ _ Hc) as [Hc1 _].
  destruct (loads_app _ _ _ Hl) as [Hl1 _].
  destruct (merge_conforming fs input_files Hl1 Hc1) as (d & Hm & Hinv & Hty).
  destruct (merge_conforming fs (input_files ++ more) Hl Hc)
    as (d' & Hm' & Hinv' & Hty').
  exists (dict_values d), (dict_values d'). repeat split; auto.
  - rewrite (merged_names _ _ Hinv), (merged_names _ _ Hinv').
    unfold entries. rewrite flat_map_app, map_app. apply first_seen_app.
  - intros r Hr. apply value_in in Hr. destruct Hr as [k Hr].
    apply (inv_values _ _ Hinv) in Hr. destruct Hr as [_ Hr].
    apply first_of_highest_in in Hr.
    assert (Hin : In r (entries fs (input_files ++ more))).
    { unfold entries. rewrite flat_map_app. apply in_app_iff. now left. }
    destruct (merged_covers _ _ Hinv' Hty' r Hin) as (r' & Hr' & Hn).
    exists r'. repeat split; auto.
    destruct (value_in _ _ Hr') as [k' Hk'].
    apply (inv_values _ _ Hinv') in Hk'. destruct Hk' as [_ Hmax].
    eapply first_of_highest_bound; eauto.
Qed.

(** *** The command line *)

Import MergerMain.

(** X6. When no load raises an exception the merger does not catch and
    none of the input files yields an entry (the files cannot be opened,
    are rejected, or hold no entry with a [name] and a [stars_count]),
    and the output path can be written, [main] still writes the output
    file, as an empty array, reports 0 merged projects and exits with
    status 0. *)
Theorem main_nothing_to_merge (fs : filesystem) (writable : string -> bool)
    (args : arguments) :
  input_files args <> [] ->
  loads fs (input_files args) = true ->
  entries fs (input_files args) = [] ->
  writable (output_path args) = true ->
  main fs writable args =
  {| exit_status := 0;
     written := Some (output_path args, JArr []);
     said := [Merged 0 (output_path args)] |}.
Proof.
  intros Hne Hl He Hw. unfold main.
  destruct (input_files args) as [|p rest] eqn:Hi; [congruence|].
  rewrite (merge_projects_entries _ _ Hl), He, Hw. reflexivity.
Qed.

(** X7. Whenever [main] writes, it writes to the output path (the
    default [projects.json] without [-o]) and exits with status 0, and
    what it writes is the array that [merge_projects] returned: records
    of the input files, at most one of each name. *)
Theorem main_writes_merged (fs : filesystem) (writable : string -> bool)
    (args : arguments) (path : string) (v : json) :
  written (main fs writable args) = Some (path, v) ->
  path = output_path args /\
  exit_status (main fs writable args) = 0 /\
  exists merged_list,
    v = JArr merged_list /\
    merge_projects fs (input_files args) = Returned merged_list /\
    NoDup (map (field "name") merged_list) /\
    forall r, In r merged_list -> In r (entries fs (input_files args)).
Proof.
  unfold main.
  destruct (input_files args) as [|p rest] eqn:Hi; [discriminate|].
  destruct (merge_projects fs (p :: rest)) as [l|e] eqn:Hm; [|discriminate].
  destruct (writable (output_path args)); [|discriminate].
  cbn [written exit_status]. intros H. injection H as <- <-.
  repeat split; auto.
  exists l. repeat split; auto.
  - eapply merge_unique; eauto.
  - eapply merge_records_read; eauto.
Qed.

(** *** Sample runs *)

Import Examples MoreExamples.

(** The record kept for ["b"] is the fourth entry of [mixed.json]. *)
Lemma merge_returns_input_records_witness :
  merge_projects sample_files ["mixed.json"] =
    Returned [project "b" (JInt 7); project "a" (JInt 9)] /\
  In (project "b" (JInt 7)) [project "b" (JInt 7); project "a" (JInt 9)] /\
  valid_entry (project "b" (JInt 7)) = true /\
  exists file_path projects,
    In file_path ["mixed.json"] /\
    sample_files file_path = Loaded (JArr projects) /\
    In (project "b" (JInt 7)) projects.
Proof.
  split; [reflexivity|]. split; [now left|].
  apply (merge_returns_input_records sample_files ["mixed.json"]
           [project "b" (JInt 7); project "a" (JInt 9)]);
    [reflexivity | now left].
Defined.

(** Unusable files around [five.json] change nothing. *)
Lemma merge_depends_on_entries_witness :
  loads sample_files ["gone.json"; "five.json"; "object.json"] = true /\
  loads sample_files ["five.json"; "broken.json"] = true /\
  entries sample_files ["gone.json"; "five.json"; "object.json"] =
    entries sample_files ["five.json"; "broken.json"] /\
  merge_projects sample_files ["gone.json"; "five.json"; "object.json"] =
    merge_projects sample_files ["five.json"; "broken.json"].
Proof.
  do 3 (split; [reflexivity|]).
  apply (merge_depends_on_entries sample_files sample_files); reflexivity.
Defined.

(** Four files, one line for each: three errors and a warning. *)
Lemma merge_prints_diagnostics_witness :
  merge_run sample_files ["gone.json"; "mixed.json"; "broken.json"; "object.json"] =
    Returned ([project "b" (JInt 7); project "a" (JInt 9)],
              [ErrorCannotOpen "gone.json"; WarningInvalidEntry "mixed.json";
               ErrorInvalidJSON "broken.json"; ErrorNotArray "object.json"]) /\
  [ErrorCannotOpen "gone.json"; WarningInvalidEntry "mixed.json";
   ErrorInvalidJSON "broken.json"; ErrorNotArray "object.json"] =
  flat_map (diagnostics sample_files)
    ["gone.json"; "mixed.json"; "broken.json"; "object.json"].
Proof.
  split; [reflexivity|].
  apply (merge_prints_diagnostics sample_files
           ["gone.json"; "mixed.json"; "broken.json"; "object.json"]
           [project "b" (JInt 7); project "a" (JInt 9)]).
  reflexivity.
Defined.

(** [merged.json] holds what [five.json] and [nine.json] merge to. *)
Lemma merge_incremental_witness :
  conforming saved_files (["five.json"; "nine.json"] ++ ["mixed.json"]) = true /\
  merge_projects saved_files ["five.json"; "nine.json"] =
    Returned [project "a" (JInt 9)] /\
  saved_files "merged.json" = Loaded (JArr [project "a" (JInt 9)]) /\
  merge_projects saved_files ("merged.json" :: ["mixed.json"]) =
  merge_projects saved_files (["five.json"; "nine.json"] ++ ["mixed.json"]).
Proof.
  do 3 (split; [reflexivity|]).
  apply (merge_incremental saved_files ["five.json"; "nine.json"]
           ["mixed.json"] "merged.json" [project "a" (JInt 9)]);
    reflexivity.
Defined.

(** [mixed.json] first, then the two files about ["a"]. *)
Lemma merge_more_files_witness :
  loads sample_files (["mixed.json"] ++ ["five.json"; "nine.json"]) = true /\
  conforming sample_files (["mixed.json"] ++ ["five.json"; "nine.json"]) = true /\
  exists merged_list merged_list',
    merge_projects sample_files ["mixed.json"] = Returned merged_list /\
    merge_projects sample_files (["mixed.json"] ++ ["five.json"; "nine.json"]) =
      Returned merged_list' /\
    exists tail, map name merged_list' = map name merged_list ++ tail.
Proof.
  split; [reflexivity|]. split; [reflexivity|].
  destruct (merge_more_files sample_files ["mixed.json"]
              ["five.json"; "nine.json"] eq_refl eq_refl)
    as (l & l' & H1 & H2 & H3 & _).
  exists l, l'. auto.
Defined.

(** Three input files, none of which can be used. *)
Lemma main_nothing_to_merge_witness :
  MergerMain.input_files merge_args <> [] /\
  loads sample_files (MergerMain.input_files merge_args) = true /\
  entries sample_files (MergerMain.input_files merge_args) = [] /\
  MergerMain.main sample_files (fun _ => true) merge_args =
  {| MergerMain.exit_status := 0;
     MergerMain.written := Some ("projects.json", JArr []);
     MergerMain.said := [MergerMain.Merged 0 "projects.json"] |}.
Proof.
  split; [discriminate|]. do 2 (split; [reflexivity|]).
  apply (main_nothing_to_merge sample_files (fun _ => true) merge_args);
    [discriminate | reflexivity | reflexivity | reflexivity].
Defined.

(** Two files merged into [out.json]. *)
Lemma main_writes_merged_witness :
  MergerMain.written (MergerMain.main sample_files (fun _ => true) merge_args_mixed) =
    Some ("out.json", JArr [project "b" (JInt 7); project "a" (JInt 9)]) /\
  MergerMain.exit_status
    (MergerMain.main sample_files (fun _ => true) merge_args_mixed) = 0.
Proof.
  split; [reflexivity|].
  destruct (main_writes_merged sample_files (fun _ => true) merge_args_mixed
              "out.json" (JArr [project "b" (JInt 7); project "a" (JInt 9)])
              eq_refl) as (_ & H & _).
  exact H.
Defined.
End MergerMore.

(** ** More on the updater *)

Module UpdaterMore.
Import Updater UpdaterFacts Coverage.

(** *** The repository path *)

Lemma prefix_append (s t : string) : String.prefix s (s ++ t)%string = true.
Proof.
  induction s as [|c s IH]; simpl.
  - now destruct t.
  - destruct (ascii_dec c c); [exact IH | congruence].
Qed.

Lemma remove_from_skip (old t s : string) :
  remove_from old (String.length t) (t ++ s)%string = remove_from old O s.
Proof.
  induction t as [|c t IH]; simpl; auto.
Qed.

Lemma remove_from_absent (old s : string) :
  substring_in old s = false -> remove_from old O s = s.
Proof.
  induction s as [|c s IH]; auto.
  cbn [substring_in remove_from]. intros H.
  apply orb_false_elim in H. destruct H as [Hp Hs].
  rewrite Hp, IH; auto.
Qed.

(** X8. For a URL made of the prefix [https://github.com/] and a path in
    which that prefix does not occur again, [extract_repo_path] gives
    back the path: the owner and the repository name come out as they
    stand in the URL. *)
Theorem extract_repo_path_of_url (path : string) :
  substring_in github_prefix path = false ->
  extract_repo_path (JStr (github_prefix ++ path)%string) = Returned path.
Proof.
  intros H. unfold extract_repo_path. rewrite prefix_append.
  f_equal.
  change (github_prefix ++ path)%string
    with (String "h" ("ttps://github.com/" ++ path)%string).
  cbn [remove_from].
  change (String "h" ("ttps://github.com/" ++ path)%string)
    with (github_prefix ++ path)%string.
  rewrite prefix_append.
  change (Nat.pred (String.length github_prefix))
    with (String.length "ttps://github.com/").
  rewrite remove_from_skip. now apply remove_from_absent.
Qed.

(** *** The link that is used *)

Lemma mentions_github_truthy (url : string) :
  mentions_github url = true -> py_truthy (JStr url) = true.
Proof.
  destruct url; [discriminate | reflexivity].
Qed.

Lemma first_github_url_hit (before after : list json) (hit : json)
    (url : string) :
  Forall (fun i => exists u, link_url i u /\ mentions_github u = false) before ->
  link_url hit url -> mentions_github url = true ->
  first_github_url (before ++ hit :: after) = Returned (Some (JStr url)).
Proof.
  unfold link_url, mentions_github. intros Hb Hh Hm.
  induction Hb as [|i before (u & Hu & Hno) _ IH]; simpl.
  - rewrite Hh. simpl. now rewrite Hm.
  - rewrite Hu. simpl. now rewrite Hno.
Qed.

Lemma first_github_url_none (links : list json) :
  Forall (fun i => exists u, link_url i u /\ mentions_github u = false) links ->
  first_github_url links = Returned None.
Proof.
  unfold link_url, mentions_github.
  induction 1 as [|i links (u & Hu & Hno) _ IH]; simpl; auto.
  rewrite Hu. simpl. now rewrite Hno.
Qed.

(** X9. The first link whose URL contains [github.com] decides, and the
    links after it are not looked at (they may be malformed): the entry
    gets the path extracted from that URL, or the [ValueError] of
    [extract_repo_path] when that URL does not start with
    [https://github.com/], even if a later link does. *)
Theorem first_github_link_decides (repo : repo_data)
    (before after : list json) (hit : json) (url : string) :
  obj_get "links" repo = Some (JArr (before ++ hit :: after)) ->
  Forall (fun i => exists u, link_url i u /\ mentions_github u = false) before ->
  link_url hit url -> mentions_github url = true ->
  locate repo = fmap Some (extract_repo_path (JStr url)) /\
  (String.prefix github_prefix url = false -> locate repo = Raised ValueError).
Proof.
  intros Hl Hb Hh Hm.
  assert (H : locate repo = fmap Some (extract_repo_path (JStr url))).
  { unfold locate. cbn [py_getitem]. rewrite Hl. cbn [bind py_iter].
    rewrite (first_github_url_hit before after hit url Hb Hh Hm).
    cbn [bind]. now rewrite (mentions_github_truthy _ Hm). }
  split; [exact H|].
  intros Hp. rewrite H. unfold extract_repo_path. now rewrite Hp.
Qed.

(** X10. An entry whose links are all link objects with a string URL
    that does not contain [github.com] (an entry with no link at all
    among them) is passed over: an error line is logged, the service is
    not called, the entry and the script of answers stay as they are. *)
Theorem no_github_link_skipped (script : list attempt) (index : Z)
    (repo : repo_data) (links : list json) :
  obj_get "links" repo = Some (JArr links) ->
  Forall (fun i => exists u, link_url i u /\ mentions_github u = false) links ->
  process_repo script index repo =
  (Some false, repo, [LogNoGithubUrl (repo_name repo index)], script).
Proof.
  intros Hl Hno. unfold process_repo, locate. cbn [py_getitem].
  rewrite Hl. cbn [bind py_iter].
  now rewrite (first_github_url_none links Hno).
Qed.

(** *** The fields of an entry *)

Lemma obj_get_set_other (k k' : string) (v : json) (o : repo_data) :
  k <> k' -> obj_get k (obj_set k' v o) = obj_get k o.
Proof.
  unfold obj_get, obj_set. intros Hne.
  induction o as [|[k0 v0] o IH]; simpl.
  - destruct (String.eqb_spec k' k); [congruence | reflexivity].
  - destruct (String.eqb_spec k0 k') as [->|]; simpl.
    + destruct (String.eqb_spec k' k); [congruence | reflexivity].
    + now rewrite IH.
Qed.

Lemma obj_get_set_same (k : string) (v : json) (o : repo_data) :
  obj_get k (obj_set k v o) = Some v.
Proof.
  apply dict_get_set_same. apply String.eqb_refl.
Qed.

Lemma obj_set_keys (k : string) (v : json) (o : repo_data) :
  exists added, dict_keys (obj_set k v o) = dict_keys o ++ added.
Proof.
  unfold obj_set, dict_keys.
  induction o as [|[k0 v0] o [added IH]]; simpl.
  - now exists [k].
  - destruct (String.eqb k0 k); simpl.
    + exists []. now rewrite app_nil_r.
    + exists added. now rewrite IH.
Qed.

Lemma counts_apart_refl (o : repo_data) : counts_apart o o.
Proof. intros k _ _. reflexivity. Qed.

Lemma loop_body_fields (p : string) (max_retries : Z) (a : attempt)
    (c b : Z) (repo : repo_data) :
  let '(_, repo', _) := loop_body p max_retries a c b repo in
  counts_apart repo repo' /\
  exists added, dict_keys repo' = dict_keys repo ++ added.
Proof.
  assert (Hset : forall s f,
            let repo' := obj_set "forks_count" (JInt f)
                           (obj_set "stars_count" (JInt s) repo) in
            counts_apart repo repo' /\
            exists added, dict_keys repo' = dict_keys repo ++ added).
  { intros s f. split.
    - intros k Hs Hf. now rewrite !obj_get_set_other.
    - destruct (obj_set_keys "stars_count" (JInt s) repo) as [a1 H1].
      destruct (obj_set_keys "forks_count" (JInt f)
                  (obj_set "stars_count" (JInt s) repo)) as [a2 H2].
      exists (a1 ++ a2). now rewrite H2, H1, app_assoc. }
  assert (Hid : counts_apart repo repo /\
                exists added, dict_keys repo = dict_keys repo ++ added).
  { split; [apply counts_apart_refl|]. exists []. now rewrite app_nil_r. }
  paths a; auto; apply Hset.
Qed.

Lemma update_loop_fields (p : string) (max_retries : Z) (script : list attempt) :
  forall (c b : Z) (repo : repo_data),
  let r := update_loop p max_retries script c b repo in
  counts_apart repo (data r) /\
  exists added, dict_keys (data r) = dict_keys repo ++ added.
Proof.
  assert (Hid : forall repo : repo_data, counts_apart repo repo /\
                exists added, dict_keys repo = dict_keys repo ++ added).
  { intros repo. split; [apply counts_apart_refl|].
    exists []. now rewrite app_nil_r. }
  induction script as [|a script IH]; intros c b repo; cbv zeta;
    destruct (Z.le_gt_cases max_retries c) as [Hc|Hc];
    try (rewrite update_loop_exhausted by auto; apply Hid).
  - simpl. destruct (Z.ltb_spec c max_retries); apply Hid.
  - rewrite update_loop_cons by auto.
    pose proof (loop_body_fields p max_retries a c b repo) as Hb.
    destruct (loop_body p max_retries a c b repo) as [[ctl repo'] evs].
    destruct Hb as [Hk [added Ha]].
    destruct ctl as [c' b'| |]; cbn [data emit]; try (split; eauto; fail).
    destruct (IH c' b' repo') as [Hk' [added' Ha']]. split.
    + intros k Hs Hf. now rewrite Hk', Hk.
    + exists (added ++ added'). now rewrite Ha', Ha, app_assoc.
Qed.

(** X11. However a run of [update_repo_stats] goes, it touches no field
    of the entry other than [stars_count] and [forks_count]: every other
    key keeps its value, and the keys the entry had stay in their
    places, a count that was missing being added after them. *)
Theorem update_keeps_other_fields (script : list attempt) (repo_path : string)
    (repo : repo_data) (max_retries : Z) :
  let r := update_repo_stats script repo_path repo max_retries in
  (forall k, k <> "stars_count" -> k <> "forks_count" ->
             obj_get k (data r) = obj_get k repo) /\
  exists added, dict_keys (data r) = dict_keys repo ++ added.
Proof.
  apply (update_loop_fields repo_path max_retries script 0 1 repo).
Qed.

(** *** How a run ends *)

(** The last iteration of a run that returns [True] or raises. *)
Lemma update_loop_last (p : string) (max_retries : Z) (script : list attempt) :
  forall (c b : Z) (repo : repo_data),
  let r := update_loop p max_retries script c b repo in
  match out r with
  | Waiting => unused r = []
  | Done (Returned false) => True
  | Done (Returned true) =>
      exists used a s f,
        script = used ++ a :: unused r /\
        get_repo a = Returned (s, f) /\ succeeds a = true /\
        obj_get "stars_count" (data r) = Some (JInt s) /\
        obj_get "forks_count" (data r) = Some (JInt f)
  | Done (Raised e) =>
      exists used a,
        script = used ++ a :: unused r /\
        ((calm a = false /\ rate_limit_reset a = Raised e) \/
         (e = AttributeError /\
          exists status data,
            raised_in_try a = Some (GithubException status data) /\
            is_object data = false))
  end.
Proof.
  induction script as [|a script IH]; intros c b repo; cbv zeta;
    destruct (Z.le_gt_cases max_retries c) as [Hc|Hc];
    try (rewrite update_loop_exhausted by auto; exact I).
  - simpl. destruct (Z.ltb_spec c max_retries); [reflexivity | exact I].
  - rewrite update_loop_cons by auto.
    assert (Hb :
      let '(ctl, repo', _) := loop_body p max_retries a c b repo in
      match ctl with
      | Continue _ _ => True
      | Return true =>
          exists s f, get_repo a = Returned (s, f) /\ succeeds a = true /\
            obj_get "stars_count" repo' = Some (JInt s) /\
            obj_get "forks_count" repo' = Some (JInt f)
      | Return false => True
      | Raise e =>
          (calm a = false /\ rate_limit_reset a = Raised e) \/
          (e = AttributeError /\
           exists status data,
             raised_in_try a = Some (GithubException status data) /\
             is_object data = false)
      end).
    { unfold calm, succeeds, raised_in_try. paths a; auto;
        try (right; split; [reflexivity|]; do 2 eexists;
             split; reflexivity).
      do 2 eexists. split; [reflexivity|]. split; [reflexivity|].
      rewrite obj_get_set_same, obj_get_set_other by discriminate.
      now rewrite obj_get_set_same. }
    destruct (loop_body p max_retries a c b repo) as [[ctl repo'] evs].
    destruct ctl as [c' b'|[|]|e]; cbn [out data unused emit]; auto.
    + specialize (IH c' b' repo'). cbv zeta in IH.
      destruct (out (update_loop p max_retries script c' b' repo'))
        as [[[|]|e]|]; auto.
      * destruct IH as (used & a' & s & f & Hs & H).
        exists (a :: used), a', s, f. split; auto. simpl. now f_equal.
      * destruct IH as (used & a' & Hs & H).
        exists (a :: used), a'. split; auto. simpl. now f_equal.
    + destruct Hb as (s & f & H). exists [], a, s, f. auto.
    + exists [], a. auto.
Qed.

(** X12. When [update_repo_stats] returns [True], the entry holds the
    [stargazers_count] and the [forks_count] that the service gave in
    the last iteration made, the one whose [try] block ran through. *)
Theorem success_stores_fetched_counts (script : list attempt)
    (repo_path : string) (repo : repo_data) (max_retries : Z) :
  let r := update_repo_stats script repo_path repo max_retries in
  out r = Done (Returned true) ->
  exists used a stargazers_count forks_count,
    script = used ++ a :: unused r /\
    get_repo a = Returned (stargazers_count, forks_count) /\
    succeeds a = true /\
    obj_get "stars_count" (data r) = Some (JInt stargazers_count) /\
    obj_get "forks_count" (data r) = Some (JInt forks_count).
Proof.
  cbv zeta. intros H.
  pose proof (update_loop_last repo_path max_retries script 0 1 repo) as L.
  cbv zeta in L. unfold update_repo_stats in *. now rewrite H in L.
Qed.

(** X13. An exception leaves [update_repo_stats] only from a handler,
    in the last iteration made: either from the rate-limit handler, as
    the exception raised by the query of the reset time, in an iteration
    whose [try] block raised rate-limit-exceeded; or from the handler of
    API errors, as [AttributeError], when the [data] of the error raised
    in the [try] block is not a mapping. *)
Theorem raises_only_in_handlers (script : list attempt) (repo_path : string)
    (repo : repo_data) (max_retries : Z) (e : exn) :
  let r := update_repo_stats script repo_path repo max_retries in
  out r = Done (Raised e) ->
  exists used a,
    script = used ++ a :: unused r /\
    ((calm a = false /\ rate_limit_reset a = Raised e) \/
     (e = AttributeError /\
      exists status data,
        raised_in_try a = Some (GithubException status data) /\
        is_object data = false)).
Proof.
  cbv zeta. intros H.
  pose proof (update_loop_last repo_path max_retries script 0 1 repo) as L.
  cbv zeta in L. unfold update_repo_stats in *. now rewrite H in L.
Qed.

(** *** How many fetches, how much sleep *)

Lemma rate_limit_sleeps_app (t u : list event) :
  rate_limit_sleeps (t ++ u) = (rate_limit_sleeps t + rate_limit_sleeps u)%nat.
Proof.
  unfold rate_limit_sleeps. now rewrite filter_app, length_app.
Qed.

Lemma loop_body_fetch (p : string) (max_retries : Z) (a : attempt)
    (c b : Z) (repo : repo_data) :
  let '(ctl, _, evs) := loop_body p max_retries a c b repo in
  fetches evs = 1%nat /\
  match ctl with
  | Continue c' _ =>
      (c' = c /\ rate_limit_sleeps evs = 1%nat) \/
      (c' = c + 1 /\ rate_limit_sleeps evs = O)
  | _ => rate_limit_sleeps evs = O
  end.
Proof.
  paths a; auto.
Qed.

Lemma update_loop_fetches (p : string) (max_retries : Z) (script : list attempt) :
  forall (c b : Z) (repo : repo_data),
  let tr := trace (update_loop p max_retries script c b repo) in
  (fetches tr <= Z.to_nat (max_retries - c) + rate_limit_sleeps tr)%nat.
Proof.
  induction script as [|a script IH]; intros c b repo; cbv zeta;
    destruct (Z.le_gt_cases max_retries c) as [Hc|Hc];
    try (rewrite update_loop_exhausted by auto; apply Nat.le_0_l).
  - simpl. destruct (Z.ltb_spec c max_retries); apply Nat.le_0_l.
  - rewrite update_loop_cons by auto.
    pose proof (loop_body_fetch p max_retries a c b repo) as Hb.
    destruct (loop_body p max_retries a c b repo) as [[ctl repo'] evs].
    destruct Hb as [Hf Hs].
    destruct ctl as [c' b'| |]; cbn [trace emit]; try lia.
    rewrite fetches_app, rate_limit_sleeps_app, Hf.
    specialize (IH c' b' repo'). cbv zeta in IH.
    destruct Hs as [[-> Hs]|[-> Hs]]; rewrite Hs; lia.
Qed.

(** X14. A run of [update_repo_stats] never fetches more often than
    [max_retries] times plus once for each sleep of the rate-limit
    handler. *)
Theorem fetches_bounded (script : list attempt) (repo_path : string)
    (repo : repo_data) (max_retries : Z) :
  let tr := trace (update_repo_stats script repo_path repo max_retries) in
  (fetches tr <= Z.to_nat max_retries + rate_limit_sleeps tr)%nat.
Proof.
  pose proof (update_loop_fetches repo_path max_retries script 0 1 repo) as H.
  cbv zeta in *. now rewrite Z.sub_0_r in H.
Qed.

Lemma total_powers (m : nat) :
  total (map (fun k => 2 ^ Z.of_nat k) (seq 1 m)) = 2 ^ (Z.of_nat m + 1) - 2.
Proof.
  unfold total. induction m as [|m IH]; [reflexivity|].
  rewrite seq_S, map_app, fold_right_app. simpl fold_right at 2.
  assert (G : forall (l : list Z) (x : Z),
            fold_right Z.add x l = fold_right Z.add 0 l + x).
  { induction l as [|y l IHl]; intros x; simpl; [lia|]. rewrite IHl. lia. }
  rewrite G, IH.
  replace (Z.of_nat (1 + m)) with (Z.of_nat m + 1) by lia.
  replace (Z.of_nat (S m) + 1) with (Z.succ (Z.of_nat m + 1)) by lia.
  rewrite Z.pow_succ_r by lia. lia.
Qed.

(** X15. The backoff sleeps of a run of [update_repo_stats] add up to
    [2^(m+1) - 2] seconds after [m] counted errors, hence to no more
    than [2^(max_retries+1) - 2] seconds: 62 seconds with the default of
    five retries. *)
Theorem backoff_total_bounded (script : list attempt) (repo_path : string)
    (repo : repo_data) (max_retries : Z) :
  let tr := trace (update_repo_stats script repo_path repo max_retries) in
  total (backoff_sleeps tr) = 2 ^ (Z.of_nat (retry_errors tr) + 1) - 2 /\
  (0 <= max_retries ->
   total (backoff_sleeps tr) <= 2 ^ (max_retries + 1) - 2) /\
  (max_retries = default_max_retries -> total (backoff_sleeps tr) <= 62).
Proof.
  cbv zeta. unfold update_repo_stats.
  destruct (update_loop_backoff repo_path max_retries script 0 1 repo)
    as (A & _ & C). cbv zeta in A, C.
  assert (E : total (backoff_sleeps
                (trace (update_loop repo_path max_retries script 0 1 repo))) =
              2 ^ (Z.of_nat (retry_errors
                (trace (update_loop repo_path max_retries script 0 1 repo))) + 1) - 2).
  { rewrite A. rewrite <- total_powers. f_equal. apply map_ext.
    intros k. lia. }
  assert (B : 0 <= max_retries ->
              total (backoff_sleeps
                (trace (update_loop repo_path max_retries script 0 1 repo))) <=
              2 ^ (max_retries + 1) - 2).
  { intros Hm. rewrite E.
    assert (2 ^ (Z.of_nat (retry_errors
              (trace (update_loop repo_path max_retries script 0 1 repo))) + 1)
            <= 2 ^ (max_retries + 1)); [|lia].
    apply Z.pow_le_mono_r; lia. }
  split; [exact E|]. split; [exact B|].
  intros ->. apply B. unfold default_max_retries. lia.
Qed.

(** *** What [main] writes *)

Lemma process_repo_fields (script : list attempt) (index : Z) (repo : repo_data) :
  let '(_, repo', _, _) := process_repo script index repo in
  counts_apart repo repo'.
Proof.
  unfold process_repo.
  destruct (locate repo) as [[path|]|e]; try apply counts_apart_refl.
  pose proof (update_loop_fields path default_max_retries script 0 1 repo)
    as [H _].
  unfold update_repo_stats.
  destruct (out (update_loop path default_max_retries script 0 1 repo))
    as [[[|]|]|]; exact H.
Qed.

Lemma main_loop_fields (total : Z) (repos : list json) :
  forall (script : list attempt) (index : Z),
  let '(e, repos', _) := main_loop script index total repos in
  match e with
  | Completed _ => Forall2 entry_counts_apart repos repos'
  | _ => True
  end.
Proof.
  induction repos as [|[| | | | |repo] repos IH]; intros script index;
    cbn [main_loop]; auto.
  pose proof (process_repo_fields script index repo) as Hp.
  destruct (process_repo script index repo) as [[[counted repo'] evs] script'].
  destruct counted as [c|]; auto.
  specialize (IH script' (index + 1)).
  destruct (main_loop script' (index + 1) total repos) as [[e rest'] evs'].
  destruct e; auto. constructor; auto.
  exists repo, repo'. auto.
Qed.

(** X16. Whenever the updater's [main], having loaded an array, writes a
    file, it writes to the output path an array with as many entries,
    each one a mapping that agrees with the entry loaded on every key
    other than [stars_count] and [forks_count]; and its exit status is
    0. *)
Theorem main_writes_same_entries (w : world) (args : arguments)
    (repos : list json) (path : string) (v : json) :
  files w (json_path args) = Loaded (JArr repos) ->
  written (main w args) = Some (path, v) ->
  path = output_file args /\
  exit_status (main w args) = Some 0 /\
  exists repos',
    v = JArr repos' /\
    List.length repos' = List.length repos /\
    Forall2 entry_counts_apart repos repos'.
Proof.
  intros Hf. unfold main. rewrite Hf. cbn [py_iter].
  pose proof (main_loop_fields (Z.of_nat (List.length repos)) repos
                (service w) 1) as Hl.
  destruct (main_loop (service w) 1 (Z.of_nat (List.length repos)) repos)
    as [[e repos'] evs].
  destruct e as [n| |]; try discriminate.
  destruct (writable w (output_file args)); [|discriminate].
  cbn [written exit_status]. intros H. injection H as <- <-.
  repeat split; auto. exists repos'. repeat split; auto.
  symmetry. eapply Forall2_length; eauto.
Qed.

Lemma main_loop_not_mapping (total : Z) (repos : list json) :
  forallb is_object repos = false ->
  forall (script : list attempt) (index : Z),
  match fst (fst (main_loop script index total repos)) with
  | Completed _ => False
  | _ => True
  end.
Proof.
  induction repos as [|[| | | | |repo] repos IH]; intros Hno script index;
    cbn [main_loop fst]; auto; try discriminate.
  simpl in Hno.
  destruct (process_repo script index repo) as [[[counted repo'] evs] script'].
  destruct counted as [c|]; cbn [fst]; auto.
  specialize (IH Hno script' (index + 1)).
  destruct (main_loop script' (index + 1) total repos) as [[e rest'] evs'].
  cbn [fst] in *. destruct e; auto.
Qed.

(** X17. When an entry of the loaded array is not a mapping, [main]
    writes nothing, whatever the service answers and however many
    entries before that one were fetched: it ends in the outer handler
    with status 1 (or the script of answers runs out before). *)
Theorem main_never_writes_past_non_mapping (w : world) (args : arguments)
    (repos : list json) :
  files w (json_path args) = Loaded (JArr repos) ->
  forallb is_object repos = false ->
  written (main w args) = None /\
  (exit_status (main w args) = Some 1 \/ exit_status (main w args) = None).
Proof.
  intros Hf Hno. unfold main. rewrite Hf. cbn [py_iter].
  pose proof (main_loop_not_mapping (Z.of_nat (List.length repos)) repos Hno
                (service w) 1) as Hl.
  destruct (main_loop (service w) 1 (Z.of_nat (List.length repos)) repos)
    as [[e repos'] evs].
  cbn [fst] in Hl. destruct e; [contradiction| |]; simpl; auto.
Qed.

(** X18. When the loaded value is not an array, [main] never calls the
    service.  An empty string and an empty object are written back as
    they are (if the output path can be written); for any other value
    [main] fails with status 1 and writes nothing. *)
Theorem main_not_array (w : world) (args : arguments) (v : json) :
  files w (json_path args) = Loaded v ->
  is_array v = false ->
  fetches (log (main w args)) = O /\
  written (main w args) =
    (if empty_container v && writable w (output_file args)
     then Some (output_file args, v) else None) /\
  exit_status (main w args) =
    Some (if empty_container v && writable w (output_file args) then 0 else 1).
Proof.
  intros Hf Hv. unfold main. rewrite Hf.
  destruct v as [|b|z|s|l|o]; try discriminate; try (repeat split; fail).
  - destruct s as [|c s]; cbn.
    + destruct (writable w (output_file args)); repeat split.
    + repeat split.
  - destruct o as [|[k x] o]; cbn.
    + destruct (writable w (output_file args)); repeat split.
    + repeat split.
Qed.

(** *** Sample runs *)

Import Examples MoreExamples.

Lemma extract_repo_path_of_url_witness :
  substring_in github_prefix "o/r" = false /\
  extract_repo_path (JStr "https://github.com/o/r") = Returned "o/r".
Proof.
  split; [reflexivity|].
  apply (extract_repo_path_of_url "o/r"). reflexivity.
Defined.

(** The second link mentions [github.com] without the expected prefix:
    the entry fails, though the fourth link has the expected form and
    the third is no link object. *)
Lemma first_github_link_decides_witness :
  obj_get "links" mixed_links =
    Some (JArr ([link "https://example.org/"] ++
                link "http://github.com/o/r" ::
                [JNull; link "https://github.com/o/r"])) /\
  mentions_github "http://github.com/o/r" = true /\
  locate mixed_links = Raised ValueError.
Proof.
  split; [reflexivity|]. split; [reflexivity|].
  destruct (first_github_link_decides mixed_links
              [link "https://example.org/"]
              [JNull; link "https://github.com/o/r"]
              (link "http://github.com/o/r") "http://github.com/o/r")
    as [_ H].
  - reflexivity.
  - constructor; [|constructor].
    exists "https://example.org/". split; reflexivity.
  - reflexivity.
  - reflexivity.
  - apply H. reflexivity.
Defined.

Lemma no_github_link_skipped_witness :
  obj_get "links" elsewhere_repo =
    Some (JArr [link "https://example.org/"; link "https://gitlab.com/o/r"]) /\
  process_repo [fetched] 1 elsewhere_repo =
  (Some false, elsewhere_repo, [LogNoGithubUrl (Name (JStr "elsewhere"))],
   [fetched]).
Proof.
  split; [reflexivity|].
  apply (no_github_link_skipped [fetched] 1 elsewhere_repo
           [link "https://example.org/"; link "https://gitlab.com/o/r"]).
  - reflexivity.
  - constructor; [|constructor; [|constructor]].
    + exists "https://example.org/". split; reflexivity.
    + exists "https://gitlab.com/o/r". split; reflexivity.
Defined.

(** A server error, a rate-limit wait, then a fetch that succeeds. *)
Lemma success_stores_fetched_counts_witness :
  out (update_repo_stats [server_error; rate_limit_ahead; fetched; not_found]
         "o/r" stored default_max_retries) = Done (Returned true) /\
  exists used a stargazers_count forks_count,
    [server_error; rate_limit_ahead; fetched; not_found] =
      used ++ a :: unused (update_repo_stats
                             [server_error; rate_limit_ahead; fetched; not_found]
                             "o/r" stored default_max_retries) /\
    get_repo a = Returned (stargazers_count, forks_count) /\
    obj_get "stars_count"
      (data (update_repo_stats [server_error; rate_limit_ahead; fetched; not_found]
               "o/r" stored default_max_retries)) =
    Some (JInt stargazers_count).
Proof.
  split; [reflexivity|].
  destruct (success_stores_fetched_counts
              [server_error; rate_limit_ahead; fetched; not_found]
              "o/r" stored default_max_retries eq_refl)
    as (used & a & s & f & H1 & H2 & _ & H4 & _).
  exists used, a, s, f. auto.
Defined.

(** The reset time cannot be obtained in the second iteration; and an
    API error without [data] in the second iteration. *)
Lemma raises_only_in_handlers_witness :
  out (update_repo_stats [server_error; rate_limit_blind; fetched]
         "o/r" stored default_max_retries) = Done (Raised OtherException) /\
  out (update_repo_stats [server_error; blank_error; fetched]
         "o/r" stored default_max_retries) = Done (Raised AttributeError) /\
  (exists used a,
     [server_error; rate_limit_blind; fetched] =
       used ++ a :: unused (update_repo_stats
                              [server_error; rate_limit_blind; fetched]
                              "o/r" stored default_max_retries)) /\
  (exists used a,
     [server_error; blank_error; fetched] =
       used ++ a :: unused (update_repo_stats
                              [server_error; blank_error; fetched]
                              "o/r" stored default_max_retries)).
Proof.
  do 2 (split; [reflexivity|]). split.
  - destruct (raises_only_in_handlers [server_error; rate_limit_blind; fetched]
                "o/r" stored default_max_retries OtherException eq_refl)
      as (used & a & H & _).
    exists used, a. exact H.
  - destruct (raises_only_in_handlers [server_error; blank_error; fetched]
                "o/r" stored default_max_retries AttributeError eq_refl)
      as (used & a & H & _).
    exists used, a. exact H.
Defined.

(** Three entries, the third one updated. *)
Lemma main_writes_same_entries_witness :
  let w := sample_world (JArr [no_links_repo; bad_prefix_repo; good_repo])
             [server_error; fetched] in
  files w (json_path sample_args) =
    Loaded (JArr [no_links_repo; bad_prefix_repo; good_repo]) /\
  exists repos',
    written (main w sample_args) = Some ("repos.json", JArr repos') /\
    Forall2 entry_counts_apart [no_links_repo; bad_prefix_repo; good_repo] repos'.
Proof.
  cbv zeta. split; [reflexivity|].
  destruct (main_writes_same_entries
              (sample_world (JArr [no_links_repo; bad_prefix_repo; good_repo])
                 [server_error; fetched])
              sample_args [no_links_repo; bad_prefix_repo; good_repo]
              "repos.json"
              (JArr [no_links_repo; bad_prefix_repo;
                     JObj [("name", JStr "good");
                           ("links", JArr [link "https://example.org/";
                                           link "https://github.com/o/r"]);
                           ("stars_count", JInt 10); ("forks_count", JInt 3)]])
              eq_refl eq_refl) as (_ & _ & repos' & Hv & _ & H).
  exists repos'. split; [|exact H].
  rewrite <- Hv. reflexivity.
Defined.

(** The second entry is a string: the first one is fetched, nothing is
    written. *)
Lemma main_never_writes_past_non_mapping_witness :
  let w := sample_world (JArr [good_repo; JStr "r"]) [fetched] in
  files w (json_path sample_args) = Loaded (JArr [good_repo; JStr "r"]) /\
  forallb is_object [good_repo; JStr "r"] = false /\
  fetches (log (main w sample_args)) = 1%nat /\
  written (main w sample_args) = None.
Proof.
  cbv zeta. do 3 (split; [reflexivity|]).
  destruct (main_never_writes_past_non_mapping
              (sample_world (JArr [good_repo; JStr "r"]) [fetched])
              sample_args [good_repo; JStr "r"] eq_refl eq_refl) as [H _].
  exact H.
Defined.

(** An empty object is written back; a number is not. *)
Lemma main_not_array_witness :
  written (main (sample_world (JObj []) [fetched]) sample_args) =
    Some ("repos.json", JObj []) /\
  written (main (sample_world (JInt 3) [fetched]) sample_args) = None.
Proof.
  destruct (main_not_array (sample_world (JObj []) [fetched]) sample_args
              (JObj []) eq_refl eq_refl) as (_ & H1 & _).
  destruct (main_not_array (sample_world (JInt 3) [fetched]) sample_args
              (JInt 3) eq_refl eq_refl) as (_ & H2 & _).
  split; [exact H1 | exact H2].
Defined.
End UpdaterMore.
